(** * color-classifier: [src/utils/color.js]

    A shallow embedding of the [Color] class: hex normalisation, the
    constructor, the three distance functions and their dispatch.

    Numbers.  JavaScript numbers are embedded as the real numbers [R] of the
    Standard Library: [+], [-], [*], [/], [Math.sqrt], [Math.sin], ... are the
    exact operations.  Rounding, signed zeros, [NaN] and [Infinity] are
    outside this embedding; the two ways the source could leave the reals
    (a division by zero, a square root of a negative number) are stated as
    explicit side conditions where a property depends on them.  Where
    rounding decides a property, the expression is evaluated in binary64
    as well ([rgbDistance_double]).

    Values.  [null] and [undefined] are embedded as [None]; a thrown
    exception as [Throw]. *)

From Stdlib Require Import Floats.
From Stdlib Require Import Reals Lra Psatz.
From Stdlib Require Import String Ascii List Bool Arith Lia.
Import ListNotations.

Set Implicit Arguments.

(* ------------------------------------------------------------------ *)
(** * Exceptions and results *)

(** What a caller can catch.  The source has no [throw] statement: the only
    exception it can raise is the engine's [TypeError] (a property read on
    [null] or [undefined], a call of a non-function).  [ColorParseError] and
    [UnknownAlgorithmError] are the error classes the specification names;
    they are listed so that statements about them can be written. *)
Inductive exn : Type :=
| TypeError
| ColorParseError (input : string)
| UnknownAlgorithmError (id : string).

Inductive result (A : Type) : Type :=
| Ok (a : A)
| Throw (e : exn).

Arguments Ok {A} a.
Arguments Throw {A} e.

Definition bind {A B : Type} (m : result A) (k : A -> result B) : result B :=
  match m with
  | Ok a => k a
  | Throw e => Throw e
  end.

Notation "x <- m ;; k" := (bind m (fun x => k))
  (at level 61, m at next level, right associativity).

(* ------------------------------------------------------------------ *)
(** * Strings and the two regular expressions *)

Open Scope string_scope.

(** The character class [[a-fA-F0-9]]. *)
Definition is_hex_digit (c : ascii) : bool :=
  let n := nat_of_ascii c in
  (((97 <=? n) && (n <=? 102)) || ((65 <=? n) && (n <=? 70))
   || ((48 <=? n) && (n <=? 57)))%nat.

Fixpoint all_hex_digits (s : string) : bool :=
  match s with
  | EmptyString => true
  | String c rest => is_hex_digit c && all_hex_digits rest
  end.

(** [/^#([a-fA-F0-9]{n})$/.test(s)]: without the [m] flag, [^] and [$] match
    only at the two ends of the input. *)
Definition hash_hex_test (n : nat) (s : string) : bool :=
  match s with
  | String "#" rest => (String.length rest =? n)%nat && all_hex_digits rest
  | _ => false
  end.

(** [const HEX_SHORT = /^#([a-fA-F0-9]{3})$/] *)
Definition HEX_SHORT_test : string -> bool := hash_hex_test 3.

(** [const HEX = /^#([a-fA-F0-9]{6})$/] *)
Definition HEX_test : string -> bool := hash_hex_test 6.

(** [s.slice(i, j)] for [0 <= i <= j]. *)
Definition slice (i j : nat) (s : string) : string := substring i (j - i) s.

(** [RegExp.prototype.test] applies [ToString] to its argument: [null]
    becomes the four characters [null]. *)
Definition ToString (v : option string) : string :=
  match v with
  | Some s => s
  | None => "null"
  end.

(** [static normalizeHex(hex)] *)
Definition normalizeHex (hex : option string) : option string :=
  if HEX_test (ToString hex) then
    hex
  else if HEX_SHORT_test (ToString hex) then
    let r := slice 1 2 (ToString hex) in
    let g := slice 2 3 (ToString hex) in
    let b := slice 3 4 (ToString hex) in
    Some ("#" ++ (r ++ r) ++ (g ++ g) ++ (b ++ b))
  else
    None.

(** ** The accepted syntax, stated independently of the matcher *)

Definition hex_alphabet : list ascii :=
  list_ascii_of_string "0123456789abcdefABCDEF".

Definition HexDigit (c : ascii) : Prop := In c hex_alphabet.

(** A 7-character [#RRGGBB]. *)
Definition LongHex (s : string) : Prop :=
  exists d1 d2 d3 d4 d5 d6 : ascii,
    s = String "#" (String d1 (String d2 (String d3
          (String d4 (String d5 (String d6 EmptyString))))))
    /\ Forall HexDigit [d1; d2; d3; d4; d5; d6].

(** A 4-character [#RGB]. *)
Definition ShortHex (s : string) : Prop :=
  exists r g b : ascii,
    s = String "#" (String r (String g (String b EmptyString)))
    /\ Forall HexDigit [r; g; b].

(** What the documentation of [normalizeHex] promises for a string input. *)
Inductive normalizeHex_doc : string -> option string -> Prop :=
| NH_long : forall s, LongHex s -> normalizeHex_doc s (Some s)
| NH_short : forall r g b,
    Forall HexDigit [r; g; b] ->
    normalizeHex_doc
      (String "#" (String r (String g (String b EmptyString))))
      (Some (String "#" (String r (String r (String g
               (String g (String b (String b EmptyString))))))))
| NH_invalid : forall s, ~ LongHex s -> ~ ShortHex s -> normalizeHex_doc s None.

(* ------------------------------------------------------------------ *)
(** * Numbers *)

Open Scope R_scope.

(** [Math.atan2(y, x)] on the reals, by the quadrant of [(x, y)].  The
    signed zeros of the source arguments are not represented; at [y = 0],
    [x < 0] the value is [PI]. *)
Definition atan2 (y x : R) : R :=
  if Rlt_dec 0 x then atan (y / x)
  else if Rlt_dec x 0 then
    if Rle_dec 0 y then atan (y / x) + PI else atan (y / x) - PI
  else if Rlt_dec 0 y then PI / 2
  else if Rlt_dec y 0 then - (PI / 2)
  else 0.

(** The comparisons of the source, as booleans: [===], [>], [<], [<=]. *)
Definition Reqb (x y : R) : bool := if Req_dec_T x y then true else false.
Definition Rgtb (x y : R) : bool := if Rgt_dec x y then true else false.
Definition Rltb (x y : R) : bool := if Rlt_dec x y then true else false.
Definition Rleb (x y : R) : bool := if Rle_dec x y then true else false.

(** Modelled from the spec: the helpers imported from [./math] are not among
    the sources; the specification uses them as degree/radian conversion,
    [hypot(a,b)] "radial distance", a square and a seventh power. *)
Definition radians (n : R) : R := n * (PI / 180).
Definition degrees (n : R) : R := n * (180 / PI).
Definition hypot (a b : R) : R := sqrt (a * a + b * b).
Definition pow2 (n : R) : R := n * n.
Definition pow7 (n : R) : R := n * n * n * n * n * n * n.

(* ------------------------------------------------------------------ *)
(** * The [Color] object *)

Record RGB : Type := mkRGB { rgb_r : R; rgb_g : R; rgb_b : R }.
Record HSV : Type := mkHSV { hsv_h : R; hsv_s : R; hsv_v : R }.

(** The four properties the constructor assigns.  A property that holds
    [null], or that has not been assigned yet, is [None]. *)
Record Color : Type := mkColor {
  original : option string;
  hex : option string;
  rgb : option RGB;
  hsv : option HSV
}.

Definition empty_object : Color := mkColor None None None None.

Definition set_original (this : Color) (v : option string) : Color :=
  mkColor v (hex this) (rgb this) (hsv this).
Definition set_hex (this : Color) (v : option string) : Color :=
  mkColor (original this) v (rgb this) (hsv this).
Definition set_rgb (this : Color) (v : option RGB) : Color :=
  mkColor (original this) (hex this) v (hsv this).
Definition set_hsv (this : Color) (v : option HSV) : Color :=
  mkColor (original this) (hex this) (rgb this) v.

(** Every property of the object holds a value. *)
Definition populated (c : Color) : Prop :=
  original c <> None /\ hex c <> None /\ rgb c <> None /\ hsv c <> None.

(** [static rgbDistance(color1, color2)]; reading [.r] of a [null] [rgb]
    throws. *)
Definition rgbDistance (color1 color2 : Color) : result R :=
  match rgb color1, rgb color2 with
  | Some a, Some b =>
      Ok (sqrt (pow2 (rgb_r a - rgb_r b) + pow2 (rgb_g a - rgb_g b)
                + pow2 (rgb_b a - rgb_b b)))
  | _, _ => Throw TypeError
  end.

(** [static hsvDistance(color1, color2)]: both [a] and [b] are bound to
    [color1.hsv]. *)
Definition hsvDistance (color1 color2 : Color) : result R :=
  match hsv color1, hsv color1 with
  | Some a, Some b =>
      let hueDiff :=
        if Rgtb (hsv_h a) (hsv_h b) then
          Rmin (hsv_h a - hsv_h b) (hsv_h b - hsv_h a + 360)
        else
          Rmin (hsv_h b - hsv_h a) (hsv_h a - hsv_h b + 360) in
      Ok (sqrt (pow2 hueDiff + pow2 (hsv_s a - hsv_s b)
                + pow2 (hsv_v a - hsv_v b)))
  | _, _ => Throw TypeError
  end.

(** The hue difference the documentation of the HSV distance asks for. *)
Definition circular_hue_diff (h1 h2 : R) : R :=
  Rmin (Rabs (h1 - h2)) (360 - Rabs (h1 - h2)).

(** The HSV distance as documented: [s], [v] and the hue of each sample. *)
Definition hsvDistance_doc (x y : HSV) : R :=
  sqrt (pow2 (circular_hue_diff (hsv_h x) (hsv_h y))
        + pow2 (hsv_s x - hsv_s y) + pow2 (hsv_v x - hsv_v y)).

(* ------------------------------------------------------------------ *)
(** * CIEDE2000: [static _ciede2kDistance(l1, a1, b1, l2, a2, b2)]

    One definition per [const] of the source, in the order of the source.
    After the section each takes the arguments it depends on, in the order
    [l1 a1 b1 l2 a2 b2]. *)

Module Ciede2k.
Section Body.

Variables l1 a1 b1 l2 a2 b2 : R.

Definition kl : R := 1.
Definition kc : R := 1.
Definition kh : R := 1.

Definition c1 : R := hypot a1 b1.
Definition c2 : R := hypot a2 b2.
Definition ac1c2 : R := (c1 + c2) / 2.
Definition g : R :=
  0.5 * (1 - sqrt (pow7 ac1c2 / (pow7 ac1c2 + pow7 25))).

Definition a1p : R := (1 + g) * a1.
Definition a2p : R := (1 + g) * a2.

Definition c1p : R := sqrt (pow2 a1p + pow2 b1).
Definition c2p : R := sqrt (pow2 a2p + pow2 b2).

Definition h1pd : R := degrees (atan2 b1 a1p).
Definition h1p : R :=
  if Reqb b1 0 && Reqb a1p 0 then 0
  else if Rgtb h1pd 0 then h1pd else h1pd + 360.

Definition h2pd : R := degrees (atan2 b2 a2p).
Definition h2p : R :=
  if Reqb b2 0 && Reqb a2p 0 then 0
  else if Rgtb h2pd 0 then h2pd else h2pd + 360.

Definition dlp : R := l2 - l1.
Definition dcp : R := c2p - c1p.
Definition dhp : R :=
  2 * sqrt (c1p * c2p)
  * sin (radians (if Reqb (c1 * c2) 0 then 0
                  else if Rleb (Rabs (h2p - h1p)) 180 then h2p - h1p
                  else if Rgtb (h2p - h1p) 180 then (h2p - h1p) - 360
                  else (h2p - h1p) + 360) / 2).

Definition al : R := (l1 + l2) / 2.
Definition acp : R := (c1p + c2p) / 2.

Definition ahp : R :=
  if Reqb (c1 * c2) 0 then
    h1p + h2p
  else if Rleb (Rabs (h1p - h2p)) 180 then
    (h1p + h2p) / 2
  else if Rgtb (Rabs (h1p - h2p)) 180 && Rltb (h1p + h2p) 360 then
    (h1p + h2p + 360) / 2
  else
    (h1p + h2p - 360) / 2.

Definition t : R :=
  1 - 0.17 * cos (radians (ahp - 30)) + 0.24 * cos (radians (2 * ahp))
  + 0.32 * cos (radians (3 * ahp + 6)) - 0.20 * cos (radians (4 * ahp - 63)).
Definition dro : R := 30 * exp (- (pow2 ((ahp - 275) / 25))).
Definition rc : R := sqrt ((pow7 acp) / (pow7 acp + pow7 25)).
Definition sl : R :=
  1 + ((0.015 * pow2 (al - 50)) / sqrt (20 + pow2 (al - 50))).
Definition sc : R := 1 + 0.045 * acp.
Definition sh : R := 1 + 0.015 * acp * t.
Definition rt : R := -2 * rc * sin (radians (2 * dro)).

(** The argument of the final [sqrt]. *)
Definition radicand : R :=
  pow2 (dlp / (sl * kl)) + pow2 (dcp / (sc * kc)) + pow2 (dhp / (sh * kh))
  + rt * (dcp / (sc * kc)) * (dhp / (sh * kh)).

Definition _ciede2kDistance : R := sqrt radicand.

End Body.
End Ciede2k.

(* ------------------------------------------------------------------ *)
(** * The dispatch tables *)

(** [export const AlgorithmTypes] *)
Module AlgorithmTypes.
Definition CIEDE2000 : string := "CIEDE2000".
Definition HSV : string := "HSV".
Definition RGB : string := "RGB".
End AlgorithmTypes.

(** What a property read [object[key]] can give here: nothing, a string, or
    an object or function, kept as the string a later use as a property key
    turns it into. *)
Inductive jsval : Type :=
| VUndefined
| VString (s : string)
| VObject (as_key : string).

(** [ToPropertyKey]: the computed member access [Color[v]] converts [v] to a
    string. *)
Definition ToPropertyKey (v : jsval) : string :=
  match v with
  | VUndefined => "undefined"
  | VString s => s
  | VObject as_key => as_key
  end.

Fixpoint assoc {A : Type} (key : string) (l : list (string * A)) : option A :=
  match l with
  | [] => None
  | (k, v) :: rest => if String.eqb key k then Some v else assoc key rest
  end.

(** The own properties of [const distanceMethodMap]. *)
Definition distanceMethodMap_own : list (string * string) :=
  [ (AlgorithmTypes.CIEDE2000, "ciede2kDistance");
    (AlgorithmTypes.HSV, "hsvDistance");
    (AlgorithmTypes.RGB, "rgbDistance") ].

(** [distanceMethodMap] is an object literal, so a key it does not own is
    looked up in [Object.prototype]: eleven built-in functions and the
    [__proto__] accessor, which yields [Object.prototype] itself.  Each is
    listed with its string conversion. *)
Definition Object_prototype : list (string * string) :=
  [ ("constructor", "function Object() { [native code] }");
    ("__defineGetter__", "function __defineGetter__() { [native code] }");
    ("__defineSetter__", "function __defineSetter__() { [native code] }");
    ("hasOwnProperty", "function hasOwnProperty() { [native code] }");
    ("__lookupGetter__", "function __lookupGetter__() { [native code] }");
    ("__lookupSetter__", "function __lookupSetter__() { [native code] }");
    ("isPrototypeOf", "function isPrototypeOf() { [native code] }");
    ("propertyIsEnumerable",
     "function propertyIsEnumerable() { [native code] }");
    ("toString", "function toString() { [native code] }");
    ("valueOf", "function valueOf() { [native code] }");
    ("__proto__", "[object Object]");
    ("toLocaleString", "function toLocaleString() { [native code] }") ].

(** [distanceMethodMap[key]] *)
Definition distanceMethodMap (key : string) : jsval :=
  match assoc key distanceMethodMap_own with
  | Some method => VString method
  | None =>
      match assoc key Object_prototype with
      | Some as_key => VObject as_key
      | None => VUndefined
      end
  end.

(** The names under which [Color[key]] finds something other than one of
    the three distance methods: the remaining static methods and what the
    class inherits from [Function.prototype] and [Object.prototype]. *)
Definition Color_other_members : list string :=
  [ "normalizeHex"; "parseHex"; "rgbToHsv"; "distance"; "_ciede2kDistance";
    "length"; "name"; "prototype"; "arguments"; "caller";
    "apply"; "bind"; "call" ] ++ map fst Object_prototype.

(* ------------------------------------------------------------------ *)
(** * The methods that call [color-convert] *)

Section Convert.

(** The three conversions of the [color-convert] package the class uses, on
    the arguments it passes them: [convert.hex.rgb], [convert.rgb.hsv] and
    [convert.hex.lab] (arrays of three numbers as triples). *)
Variable convert_hex_rgb : string -> R * R * R.
Variable convert_rgb_hsv : R * R * R -> R * R * R.
Variable convert_hex_lab : string -> R * R * R.

(** [static parseHex(hex)] *)
Definition parseHex (hex : option string) : option RGB :=
  let normalizedHex := normalizeHex hex in
  match normalizedHex with
  | None => None
  | Some n =>
      let '(r, g, b) := convert_hex_rgb n in
      Some (mkRGB r g b)
  end.

(** [static rgbToHsv(rgb)]; reading [rgb.r] of [null] throws. *)
Definition rgbToHsv (rgb : option RGB) : result HSV :=
  match rgb with
  | None => Throw TypeError
  | Some c =>
      let '(h, s, v) := convert_rgb_hsv (rgb_r c, rgb_g c, rgb_b c) in
      Ok (mkHSV h s v)
  end.

(** [static ciede2kDistance(color1, color2)].  [color-convert] hands a
    [null] argument back, and destructuring [null] throws. *)
Definition ciede2kDistance (color1 color2 : Color) : result R :=
  match hex color1, hex color2 with
  | Some h1, Some h2 =>
      let '(l1, a1, b1) := convert_hex_lab h1 in
      let '(l2, a2, b2) := convert_hex_lab h2 in
      Ok (Ciede2k._ciede2kDistance l1 a1 b1 l2 a2 b2)
  | _, _ => Throw TypeError
  end.

(** [constructor(hex)]: the four assignments to [this], in order.  The
    object reaches the caller of [new Color(hex)] only when the last one has
    completed. *)
Definition constructor (hex_arg : string) : result Color :=
  let this := empty_object in
  let this := set_original this (Some hex_arg) in
  let this := set_hex this (normalizeHex (Some hex_arg)) in
  let this := set_rgb this (parseHex (hex this)) in
  v <- rgbToHsv (rgb this) ;;
  Ok (set_hsv this (Some v)).

(** [Color[key]] where it is one of the distance methods.  The members of
    [Color_other_members] are left out: no key computed by [distance]
    names one of them (lemma [method_key_not_other]). *)
Definition Color_static (key : string)
  : option (Color -> Color -> result R) :=
  if String.eqb key "ciede2kDistance" then Some ciede2kDistance
  else if String.eqb key "hsvDistance" then Some hsvDistance
  else if String.eqb key "rgbDistance" then Some rgbDistance
  else None.

(** [static distance(color1, color2, algorithmType)]; calling [undefined]
    throws. *)
Definition distance (color1 color2 : Color) (algorithmType : string)
  : result R :=
  match Color_static (ToPropertyKey (distanceMethodMap algorithmType)) with
  | Some method => method color1 color2
  | None => Throw TypeError
  end.

End Convert.

(* ------------------------------------------------------------------ *)
(** * Auxiliary definitions for the statements *)

(** Sum of three squares, as [rgbDistance] and [hsvDistance] form it. *)
Definition sq3 (x y z : R) : R := pow2 x + pow2 y + pow2 z.

(** Three samples as the constructor builds them with the usual
    conversions: hue in degrees, saturation and value in percent. *)
Definition sample_black : Color :=
  mkColor (Some "#000000"%string) (Some "#000000"%string)
    (Some (mkRGB 0 0 0)) (Some (mkHSV 0 0 0)).
Definition sample_white : Color :=
  mkColor (Some "#fff"%string) (Some "#ffffff"%string)
    (Some (mkRGB 255 255 255)) (Some (mkHSV 0 0 100)).
Definition sample_red : Color :=
  mkColor (Some "#ff0000"%string) (Some "#ff0000"%string)
    (Some (mkRGB 255 0 0)) (Some (mkHSV 0 100 100)).

(** A converter for closed statements about paths that never run a
    conversion (an input the normaliser rejects, an algorithm identifier
    that names no method). *)
Definition no_convert {A : Type} (_ : A) : R * R * R := (0, 0, 0).

(** What [new Color("#abc")] is when every conversion gives [(0, 0, 0)]. *)
Definition sample_abc : Color :=
  mkColor (Some "#abc"%string) (Some "#aabbcc"%string)
    (Some (mkRGB 0 0 0)) (Some (mkHSV 0 0 0)).

(** The property keys [distance] can compute. *)
Definition method_keys : list string :=
  [ "ciede2kDistance"; "hsvDistance"; "rgbDistance"; "undefined" ]%string
  ++ map snd Object_prototype.

(** ** [rgbDistance] in binary64

    Modelled from the spec: [pow2] of [./math], on doubles. *)
Definition pow2_double (n : float) : float := (n * n)%float.

(** The expression of [rgbDistance] in the arithmetic of the source's
    numbers: every operation rounds to the nearest double.  The arguments
    are the channels [r], [g], [b] of [color1.rgb] and of [color2.rgb]. *)
Definition rgbDistance_double (a b : float * float * float) : float :=
  let '(ar, ag, ab) := a in
  let '(br, bg, bb) := b in
  PrimFloat.sqrt (pow2_double (ar - br) + pow2_double (ag - bg)
                  + pow2_double (ab - bb))%float.

(** The exact value of a finite double, in units of [2^-1074]. *)
Definition double_exact (f : float) : option Z :=
  match Prim2SF f with
  | S754_zero _ => Some 0%Z
  | S754_finite s m e =>
      Some (Z.shiftl (if s then Z.neg m else Z.pos m) (e + 1074))
  | _ => None
  end.

(** The channels of [#000000], [#111111] and [#ffffff]. *)
Definition rgb_000000 : float * float * float := (0, 0, 0)%float.
Definition rgb_111111 : float * float * float := (17, 17, 17)%float.
Definition rgb_ffffff : float * float * float := (255, 255, 255)%float.

(** The hue difference as the documentation of step 7 words it: the raw
    difference [h2' - h1'], brought back by a full turn when it is more than
    half a turn. *)
Definition hue_delta_doc (h1 h2 : R) : R :=
  let d := h2 - h1 in
  if Rleb (Rabs d) 180 then d
  else if Rgtb d 180 then d - 360
  else d + 360.

(** The hue term as the documentation of step 7 words it, from the adjusted
    chromas and hue angles. *)
Definition dhp_doc (c1' c2' h1' h2' : R) : R :=
  if Reqb (c1' * c2') 0 then 0
  else 2 * sqrt (c1' * c2') * sin (radians (hue_delta_doc h1' h2' / 2)).

(** The adjusted hue angle as the documentation of step 5 words its rule:
    [0] at the origin, else the degree value of [atan2(b, a')] when it is
    positive and that value plus 360 when it is not. *)
Definition hue_angle_doc (b a' : R) : R :=
  if Reqb a' 0 && Reqb b 0 then 0
  else if Rgtb (degrees (atan2 b a')) 0 then degrees (atan2 b a')
  else degrees (atan2 b a') + 360.

(** The side conditions of [_ciede2kDistance]: wherever the source divides,
    the divisor is not zero, and wherever it takes a square root, the
    argument is not negative.  They are listed in the order of the source;
    the last one is the argument of the final square root. *)
Definition ciede2k_defined (l1 a1 b1 l2 a2 b2 : R) : Prop :=
  let ac1c2 := Ciede2k.ac1c2 a1 b1 a2 b2 in
  let acp := Ciede2k.acp a1 b1 a2 b2 in
  let al := Ciede2k.al l1 l2 in
  0 <= a1 * a1 + b1 * b1
  /\ 0 <= a2 * a2 + b2 * b2
  /\ pow7 ac1c2 + pow7 25 <> 0
  /\ 0 <= pow7 ac1c2 / (pow7 ac1c2 + pow7 25)
  /\ 0 <= pow2 (Ciede2k.a1p a1 b1 a2 b2) + pow2 b1
  /\ 0 <= pow2 (Ciede2k.a2p a1 b1 a2 b2) + pow2 b2
  /\ PI <> 0
  /\ 0 <= Ciede2k.c1p a1 b1 a2 b2 * Ciede2k.c2p a1 b1 a2 b2
  /\ pow7 acp + pow7 25 <> 0
  /\ 0 <= pow7 acp / (pow7 acp + pow7 25)
  /\ 0 <= 20 + pow2 (al - 50)
  /\ sqrt (20 + pow2 (al - 50)) <> 0
  /\ Ciede2k.sl l1 l2 * Ciede2k.kl <> 0
  /\ Ciede2k.sc a1 b1 a2 b2 * Ciede2k.kc <> 0
  /\ Ciede2k.sh a1 b1 a2 b2 * Ciede2k.kh <> 0
  /\ 0 <= Ciede2k.radicand l1 a1 b1 l2 a2 b2.

(* ================================================================== *)
(** * Properties *)

(* ------------------------------------------------------------------ *)
(** ** Hex normalisation *)

Lemma is_hex_digit_alphabet (c : ascii) :
  is_hex_digit c = existsb (Ascii.eqb c) hex_alphabet.
Proof.
  destruct c as [[] [] [] [] [] [] [] []]; vm_compute; reflexivity.
Qed.

Lemma is_hex_digit_iff (c : ascii) : is_hex_digit c = true <-> HexDigit c.
Proof.
  rewrite is_hex_digit_alphabet, existsb_exists. unfold HexDigit. split.
  - intros [d [Hin Heq]]. apply Ascii.eqb_eq in Heq. now subst.
  - intros Hin. exists c. split; [assumption | apply Ascii.eqb_refl].
Qed.

Lemma hash_hex_test_iff (n : nat) (s : string) :
  hash_hex_test n s = true <->
  exists rest, s = String "#" rest /\ String.length rest = n
               /\ all_hex_digits rest = true.
Proof.
  unfold hash_hex_test. split.
  - destruct s as [|c0 rest]; [discriminate|].
    destruct (Ascii.ascii_dec c0 "#"%char) as [->|Hne].
    + rewrite andb_true_iff, Nat.eqb_eq. intros [Hl Hd]. now exists rest.
    + destruct c0 as [[] [] [] [] [] [] [] []]; try discriminate.
      now contradiction Hne.
  - intros (rest & -> & Hl & Hd).
    rewrite andb_true_iff, Nat.eqb_eq. now split.
Qed.

Lemma all_hex_digits_cons (c : ascii) (s : string) :
  all_hex_digits (String c s) = true <-> HexDigit c /\ all_hex_digits s = true.
Proof.
  change (all_hex_digits (String c s))
    with (is_hex_digit c && all_hex_digits s)%bool.
  now rewrite andb_true_iff, is_hex_digit_iff.
Qed.

Lemma HEX_test_iff (s : string) : HEX_test s = true <-> LongHex s.
Proof.
  unfold HEX_test, LongHex. rewrite hash_hex_test_iff. split.
  - intros (rest & -> & Hl & Hd).
    destruct rest as [|d1 [|d2 [|d3 [|d4 [|d5 [|d6 [|d7 rest]]]]]]];
      try discriminate Hl.
    rewrite !all_hex_digits_cons in Hd.
    destruct Hd as (H1 & H2 & H3 & H4 & H5 & H6 & _).
    exists d1, d2, d3, d4, d5, d6. split; [reflexivity|].
    repeat (apply Forall_cons; [assumption|]). apply Forall_nil.
  - intros (d1 & d2 & d3 & d4 & d5 & d6 & -> & HF).
    repeat match goal with
           | H : Forall _ (_ :: _) |- _ => inversion_clear H
           end.
    eexists. split; [reflexivity|]. split; [reflexivity|].
    rewrite !all_hex_digits_cons. tauto.
Qed.

Lemma HEX_SHORT_test_iff (s : string) : HEX_SHORT_test s = true <-> ShortHex s.
Proof.
  unfold HEX_SHORT_test, ShortHex. rewrite hash_hex_test_iff. split.
  - intros (rest & -> & Hl & Hd).
    destruct rest as [|d1 [|d2 [|d3 [|d4 rest]]]]; try discriminate Hl.
    rewrite !all_hex_digits_cons in Hd.
    destruct Hd as (H1 & H2 & H3 & _).
    exists d1, d2, d3. split; [reflexivity|].
    repeat (apply Forall_cons; [assumption|]). apply Forall_nil.
  - intros (d1 & d2 & d3 & -> & HF).
    repeat match goal with
           | H : Forall _ (_ :: _) |- _ => inversion_clear H
           end.
    eexists. split; [reflexivity|]. split; [reflexivity|].
    rewrite !all_hex_digits_cons. tauto.
Qed.

Lemma LongHex_not_ShortHex (s : string) : LongHex s -> ~ ShortHex s.
Proof.
  intros (d1 & d2 & d3 & d4 & d5 & d6 & -> & _) (r & g & b & Heq & _).
  discriminate Heq.
Qed.

Lemma normalizeHex_string (s : string) :
  normalizeHex_doc s (normalizeHex (Some s)).
Proof.
  unfold normalizeHex, ToString.
  destruct (HEX_test s) eqn:Hlong.
  - apply NH_long. now apply HEX_test_iff.
  - destruct (HEX_SHORT_test s) eqn:Hshort.
    + apply HEX_SHORT_test_iff in Hshort.
      destruct Hshort as (r & g & b & -> & HF).
      cbn. now apply NH_short.
    + apply NH_invalid.
      * intros H. apply HEX_test_iff in H. congruence.
      * intros H. apply HEX_SHORT_test_iff in H. congruence.
Qed.

(** A normalised string is a [#RRGGBB]. *)
Lemma normalizeHex_LongHex (s n : string) :
  normalizeHex (Some s) = Some n -> LongHex n.
Proof.
  intros Hn. assert (Hdoc := normalizeHex_string s). rewrite Hn in Hdoc.
  inversion Hdoc as [s' Hlong | r g b HF | ]; subst.
  - assumption.
  - exists r, r, g, g, b, b. split; [reflexivity|].
    repeat match goal with
           | H : Forall _ (_ :: _) |- _ => inversion_clear H
           end.
    repeat (apply Forall_cons; [assumption|]). apply Forall_nil.
Qed.

(** Normalising twice is normalising once. *)
Lemma normalizeHex_idempotent (s n : string) :
  normalizeHex (Some s) = Some n -> normalizeHex (Some n) = Some n.
Proof.
  intros Hn. apply normalizeHex_LongHex, HEX_test_iff in Hn.
  unfold normalizeHex, ToString. now rewrite Hn.
Qed.

(** C7. [normalizeHex] on a string: a [#RRGGBB] input comes back unchanged,
    a [#RGB] input comes back with each digit doubled, every other string
    gives [null] (no exception is involved: the result is a plain value);
    in particular ["#abc"] gives ["#aabbcc"], ["#AABBCC"] is unchanged and
    ["notacolor"] gives [null]. *)
Theorem normalizeHex_meets_doc :
  (forall s : string, normalizeHex_doc s (normalizeHex (Some s)))
  /\ normalizeHex (Some "#abc"%string) = Some "#aabbcc"%string
  /\ normalizeHex (Some "#AABBCC"%string) = Some "#AABBCC"%string
  /\ normalizeHex (Some "notacolor"%string) = None.
Proof.
  split; [exact normalizeHex_string | repeat split; reflexivity].
Qed.

(* ------------------------------------------------------------------ *)
(** ** Euclidean distance in three dimensions, in exact arithmetic *)

Lemma sq3_nonneg (x y z : R) : 0 <= sq3 x y z.
Proof. unfold sq3, pow2. nra. Qed.

Lemma sq3_zero (x y z : R) : sq3 x y z = 0 -> x = 0 /\ y = 0 /\ z = 0.
Proof. unfold sq3, pow2. intros H. repeat split; nra. Qed.

Lemma cauchy_schwarz3 (x y z u v w : R) :
  (x * u + y * v + z * w) * (x * u + y * v + z * w)
  <= sq3 x y z * sq3 u v w.
Proof.
  unfold sq3, pow2.
  assert (H1 := Rle_0_sqr (x * v - y * u)).
  assert (H2 := Rle_0_sqr (x * w - z * u)).
  assert (H3 := Rle_0_sqr (y * w - z * v)).
  unfold Rsqr in *. nra.
Qed.

Lemma norm3_triangle (x y z u v w : R) :
  sqrt (sq3 (x + u) (y + v) (z + w)) <= sqrt (sq3 x y z) + sqrt (sq3 u v w).
Proof.
  set (A := sqrt (sq3 x y z)). set (B := sqrt (sq3 u v w)).
  assert (HA : 0 <= A) by apply sqrt_pos.
  assert (HB : 0 <= B) by apply sqrt_pos.
  assert (HA2 : A * A = sq3 x y z) by (apply sqrt_def, sq3_nonneg).
  assert (HB2 : B * B = sq3 u v w) by (apply sqrt_def, sq3_nonneg).
  assert (HCS := cauchy_schwarz3 x y z u v w).
  rewrite <- HA2, <- HB2 in HCS.
  assert (Hdot : x * u + y * v + z * w <= A * B).
  { destruct (Rle_dec (x * u + y * v + z * w) 0) as [Hneg|Hpos].
    - assert (0 <= A * B) by (apply Rmult_le_pos; assumption). lra.
    - apply Rnot_le_lt in Hpos.
      apply Rnot_lt_le. intros Hlt.
      assert (0 <= A * B) by (apply Rmult_le_pos; assumption).
      nra. }
  rewrite <- (sqrt_square (A + B)) by lra.
  apply sqrt_le_1; [apply sq3_nonneg | nra |].
  unfold sq3, pow2 in *. nra.
Qed.


(* ------------------------------------------------------------------ *)
(** ** RGB distance *)

Lemma rgbDistance_populated (ca cb : Color) (x y : RGB) :
  rgb ca = Some x -> rgb cb = Some y ->
  rgbDistance ca cb
  = Ok (sqrt (sq3 (rgb_r x - rgb_r y) (rgb_g x - rgb_g y)
                  (rgb_b x - rgb_b y))).
Proof. intros Hx Hy. unfold rgbDistance. now rewrite Hx, Hy. Qed.

(** C9, as the code has it.  On samples whose [rgb] is populated,
    [rgbDistance] is the square root of the sum of the squared channel
    differences; it is symmetric, non-negative, and zero exactly when the
    two triples are equal.  The triangle inequality is not among its
    properties: the program returns the square roots rounded to doubles, and
    for [#000000], [#111111], [#ffffff] the third distance is larger than
    the sum of the other two. *)
Theorem rgbDistance_semimetric (ca cb : Color) (x y : RGB) :
  rgb ca = Some x -> rgb cb = Some y ->
  (exists dab dba : R,
     rgbDistance ca cb = Ok dab /\ rgbDistance cb ca = Ok dba
     /\ dab = sqrt ((rgb_r x - rgb_r y) ^ 2 + (rgb_g x - rgb_g y) ^ 2
                    + (rgb_b x - rgb_b y) ^ 2)
     /\ dab = dba
     /\ 0 <= dab
     /\ (dab = 0 <-> x = y))
  /\ (rgbDistance_double rgb_000000 rgb_111111
      + rgbDistance_double rgb_111111 rgb_ffffff
      <? rgbDistance_double rgb_000000 rgb_ffffff)%float = true.
Proof.
  intros Hx Hy. split; [|vm_compute; reflexivity].
  do 2 eexists.
  rewrite (rgbDistance_populated _ _ Hx Hy), (rgbDistance_populated _ _ Hy Hx).
  repeat (split; [reflexivity|]).
  split; [|split; [|split]].
  - f_equal. unfold sq3, pow2. ring.
  - f_equal. unfold sq3, pow2. ring.
  - apply sqrt_pos.
  - split.
    + intros H0. apply sqrt_eq_0 in H0; [|apply sq3_nonneg].
      apply sq3_zero in H0. destruct H0 as (Hr & Hg & Hb).
      destruct x, y; simpl in *. f_equal; lra.
    + intros ->. unfold sq3, pow2.
      replace (_ + _ + _) with 0 by ring. apply sqrt_0.
Qed.

Lemma rgbDistance_semimetric_witness :
  rgb sample_black = Some (mkRGB 0 0 0)
  /\ rgb sample_white = Some (mkRGB 255 255 255)
  /\ (exists dab dba : R,
        rgbDistance sample_black sample_white = Ok dab
        /\ rgbDistance sample_white sample_black = Ok dba
        /\ dab = sqrt ((0 - 255) ^ 2 + (0 - 255) ^ 2 + (0 - 255) ^ 2)
        /\ dab = dba
        /\ 0 <= dab
        /\ (dab = 0 <-> mkRGB 0 0 0 = mkRGB 255 255 255))
  /\ (rgbDistance_double rgb_000000 rgb_111111
      + rgbDistance_double rgb_111111 rgb_ffffff
      <? rgbDistance_double rgb_000000 rgb_ffffff)%float = true.
Proof.
  split; [reflexivity|]. split; [reflexivity|].
  apply (@rgbDistance_semimetric sample_black sample_white
           (mkRGB 0 0 0) (mkRGB 255 255 255));
    reflexivity.
Defined.

(** C9 as stated fails at [#000000], [#111111], [#ffffff].  The three
    distances the program returns are the doubles nearest to
    29.444863728670914, 412.22809220139277 and 441.6729559300637; the third
    is larger than the sum of the first two, by the comparison of the
    program's own arithmetic and exactly (by [11 / 2^48]). *)
Lemma rgbDistance_triangle_fails :
  rgbDistance_double rgb_000000 rgb_111111 = 0x1.d71e296ddd175p+4%float
  /\ rgbDistance_double rgb_111111 rgb_ffffff = 0x1.9c3a644021746p+8%float
  /\ rgbDistance_double rgb_000000 rgb_ffffff = 0x1.b9ac46d6ff45ep+8%float
  /\ (rgbDistance_double rgb_000000 rgb_111111
      + rgbDistance_double rgb_111111 rgb_ffffff
      <? rgbDistance_double rgb_000000 rgb_ffffff)%float = true
  /\ exists dab dbc dac : Z,
       double_exact (rgbDistance_double rgb_000000 rgb_111111) = Some dab
       /\ double_exact (rgbDistance_double rgb_111111 rgb_ffffff) = Some dbc
       /\ double_exact (rgbDistance_double rgb_000000 rgb_ffffff) = Some dac
       /\ (dab + dbc < dac)%Z
       /\ (dac - (dab + dbc) = 11 * 2 ^ (1074 - 48))%Z.
Proof.
  repeat split; try (vm_compute; reflexivity).
  do 3 eexists. repeat split; vm_compute; reflexivity.
Qed.

(* ------------------------------------------------------------------ *)
(** ** HSV distance *)

Lemma Rgtb_irrefl (x : R) : Rgtb x x = false.
Proof. unfold Rgtb. destruct (Rgt_dec x x) as [H|H]; [lra | reflexivity]. Qed.

Lemma hsvDistance_populated (a b : Color) (x : HSV) :
  hsv a = Some x -> hsvDistance a b = Ok 0.
Proof.
  intros Hx. unfold hsvDistance. rewrite Hx, Rgtb_irrefl. f_equal.
  rewrite Rmin_left by lra.
  unfold pow2. replace (_ + _ + _) with 0 by ring. apply sqrt_0.
Qed.

(** C10. [hsvDistance(a, b)] is [0] whenever [a.hsv] is populated, whatever
    [b] is: both operands are read from the first argument.  (With a [null]
    [a.hsv] the property read throws.) *)
Theorem hsvDistance_is_zero (a b : Color) :
  hsvDistance a b
  = match hsv a with
    | Some _ => Ok 0
    | None => Throw TypeError
    end.
Proof.
  destruct (hsv a) as [x|] eqn:Hx.
  - exact (hsvDistance_populated a b Hx).
  - unfold hsvDistance. now rewrite Hx.
Qed.

(** C6, at black and white.  The documented distance of their HSV triples
    [(0,0,0)] and [(0,0,100)] is [100]; [hsvDistance] returns [0]. *)
Theorem hsvDistance_black_white :
  hsv sample_black = Some (mkHSV 0 0 0)
  /\ hsv sample_white = Some (mkHSV 0 0 100)
  /\ hsvDistance_doc (mkHSV 0 0 0) (mkHSV 0 0 100) = 100
  /\ hsvDistance sample_black sample_white = Ok 0.
Proof.
  split; [reflexivity|]. split; [reflexivity|]. split.
  - unfold hsvDistance_doc, circular_hue_diff, pow2. simpl.
    replace (0 - 0) with 0 by ring. rewrite Rabs_R0.
    rewrite Rmin_left by lra.
    replace (0 * 0 + 0 * 0 + (0 - 100) * (0 - 100)) with (100 * 100) by ring.
    apply sqrt_square. lra.
  - now apply hsvDistance_populated with (x := mkHSV 0 0 0).
Qed.

(* ------------------------------------------------------------------ *)
(** ** The constructor *)

Section Constructor.

Variable convert_hex_rgb : string -> R * R * R.
Variable convert_rgb_hsv : R * R * R -> R * R * R.

Lemma constructor_invalid (s : string) :
  normalizeHex (Some s) = None ->
  constructor convert_hex_rgb convert_rgb_hsv s = Throw TypeError.
Proof.
  intros Hn. unfold constructor. cbn. rewrite Hn. reflexivity.
Qed.

Lemma constructor_valid (s n : string) :
  normalizeHex (Some s) = Some n ->
  exists c,
    constructor convert_hex_rgb convert_rgb_hsv s = Ok c
    /\ original c = Some s /\ hex c = Some n /\ populated c.
Proof.
  intros Hn. unfold constructor. cbn. rewrite Hn.
  unfold parseHex. rewrite (normalizeHex_idempotent _ Hn).
  destruct (convert_hex_rgb n) as [[r g] b]. cbn.
  destruct (convert_rgb_hsv (r, g, b)) as [[h sat] v]. cbn.
  eexists. split; [reflexivity|]. cbn.
  repeat split; discriminate.
Qed.

End Constructor.

(** C5, as the code has it.  [new Color(s)] either returns an object whose
    four properties are all populated ([s] normalises, [original] is [s]
    and [hex] its normal form), or throws; it throws exactly when [s] fails
    normalisation, and what it throws is the [TypeError] of reading [rgb.r]
    on [null].  No object is returned in that case. *)
Theorem constructor_all_or_nothing
    (convert_hex_rgb : string -> R * R * R)
    (convert_rgb_hsv : R * R * R -> R * R * R) (s : string) :
  match constructor convert_hex_rgb convert_rgb_hsv s with
  | Ok c =>
      normalizeHex (Some s) = hex c /\ original c = Some s /\ populated c
  | Throw e => normalizeHex (Some s) = None /\ e = TypeError
  end.
Proof.
  destruct (normalizeHex (Some s)) as [n|] eqn:Hn.
  - destruct (constructor_valid convert_hex_rgb convert_rgb_hsv _ Hn)
      as (c & -> & Ho & Hh & Hp).
    rewrite Hh. repeat split; try assumption; apply Hp.
  - rewrite (constructor_invalid _ _ _ Hn). split; reflexivity.
Qed.

(** C5 as stated fails at ["notacolor"]: the string fails normalisation and
    the exception is a [TypeError], not a [ColorParseError], and carries no
    input. *)
Lemma constructor_no_ColorParseError :
  normalizeHex (Some "notacolor"%string) = None
  /\ constructor no_convert no_convert "notacolor" = Throw TypeError
  /\ forall input : string,
       constructor no_convert no_convert "notacolor"
       <> Throw (ColorParseError input).
Proof.
  split; [reflexivity|]. split; [reflexivity|].
  intros input H. discriminate H.
Qed.

(* ------------------------------------------------------------------ *)
(** ** Dispatch *)

Lemma method_key_in (algorithmType : string) :
  In (ToPropertyKey (distanceMethodMap algorithmType)) method_keys.
Proof.
  unfold distanceMethodMap, distanceMethodMap_own, Object_prototype. cbn [assoc].
  repeat match goal with
         | |- context [String.eqb algorithmType ?k] =>
             destruct (String.eqb algorithmType k)
         end;
    cbn; tauto.
Qed.

Lemma In_existsb (x : string) (l : list string) :
  In x l -> existsb (String.eqb x) l = true.
Proof.
  intros H. apply existsb_exists. exists x. split; [assumption|].
  apply String.eqb_refl.
Qed.

(** No key [distance] computes names a member of [Color] other than the
    three distance methods. *)
Lemma method_key_not_other (algorithmType : string) :
  ~ In (ToPropertyKey (distanceMethodMap algorithmType)) Color_other_members.
Proof.
  intros Hother. apply In_existsb in Hother.
  assert (Hkey := method_key_in algorithmType).
  cbn in Hkey.
  repeat match type of Hkey with
         | _ \/ _ => destruct Hkey as [Hkey|Hkey]
         end;
    try contradiction;
    rewrite <- Hkey in Hother; vm_compute in Hother; discriminate Hother.
Qed.

Section Dispatch.

Variable convert_hex_lab : string -> R * R * R.

Lemma distance_unknown (a b : Color) (algorithmType : string) :
  algorithmType <> AlgorithmTypes.RGB ->
  algorithmType <> AlgorithmTypes.HSV ->
  algorithmType <> AlgorithmTypes.CIEDE2000 ->
  distance convert_hex_lab a b algorithmType = Throw TypeError.
Proof.
  intros Hrgb Hhsv Hcie.
  apply String.eqb_neq in Hrgb, Hhsv, Hcie.
  unfold distance, distanceMethodMap, distanceMethodMap_own. cbn [assoc].
  rewrite Hrgb, Hhsv, Hcie.
  unfold Object_prototype. cbn [assoc].
  repeat match goal with
         | |- context [String.eqb algorithmType ?k] =>
             destruct (String.eqb algorithmType k)
         end;
    reflexivity.
Qed.

End Dispatch.

(** C8, as the code has it.  The three identifiers route to [rgbDistance],
    [hsvDistance] and [ciede2kDistance]; for every other identifier string
    the looked-up method is [undefined] and calling it throws a [TypeError];
    no distance is returned. *)
Theorem distance_dispatch
    (convert_hex_lab : string -> R * R * R) (a b : Color) :
  distance convert_hex_lab a b "RGB" = rgbDistance a b
  /\ distance convert_hex_lab a b "HSV" = hsvDistance a b
  /\ distance convert_hex_lab a b "CIEDE2000"
     = ciede2kDistance convert_hex_lab a b
  /\ forall algorithmType : string,
       algorithmType <> "RGB"%string ->
       algorithmType <> "HSV"%string ->
       algorithmType <> "CIEDE2000"%string ->
       distance convert_hex_lab a b algorithmType = Throw TypeError.
Proof.
  repeat split; try reflexivity.
  intros k. apply distance_unknown.
Qed.

Lemma distance_dispatch_witness :
  "LAB"%string <> "RGB"%string
  /\ "LAB"%string <> "HSV"%string
  /\ "LAB"%string <> "CIEDE2000"%string
  /\ distance no_convert sample_black sample_white "LAB" = Throw TypeError.
Proof.
  assert (H1 : "LAB"%string <> "RGB"%string) by discriminate.
  assert (H2 : "LAB"%string <> "HSV"%string) by discriminate.
  assert (H3 : "LAB"%string <> "CIEDE2000"%string) by discriminate.
  repeat (split; [assumption|]).
  exact (proj2 (proj2 (proj2
           (distance_dispatch no_convert sample_black sample_white)))
           "LAB"%string H1 H2 H3).
Defined.

(** C8 as stated fails at the identifier ["LAB"]: the exception is a
    [TypeError], not an [UnknownAlgorithmError]. *)
Lemma distance_no_UnknownAlgorithmError :
  distance no_convert sample_black sample_white "LAB" = Throw TypeError
  /\ forall id : string,
       distance no_convert sample_black sample_white "LAB"
       <> Throw (UnknownAlgorithmError id).
Proof.
  split; [reflexivity|]. intros id H. discriminate H.
Qed.

(* ------------------------------------------------------------------ *)
(** ** CIEDE2000: ranges of the intermediate values *)

Lemma hypot_nonneg (a b : R) : 0 <= hypot a b.
Proof. apply sqrt_pos. Qed.

Lemma sum_squares_nonneg (a b : R) : 0 <= a * a + b * b.
Proof. nra. Qed.

Lemma sum_squares_zero (a b : R) : a * a + b * b = 0 -> a = 0 /\ b = 0.
Proof. intros H. split; nra. Qed.

Lemma hypot_zero (a b : R) : hypot a b = 0 <-> a = 0 /\ b = 0.
Proof.
  unfold hypot. split.
  - intros H. apply sqrt_eq_0 in H; [|nra]. now apply sum_squares_zero.
  - intros [-> ->]. replace (0 * 0 + 0 * 0) with 0 by ring. apply sqrt_0.
Qed.

Lemma pow7_nonneg (x : R) : 0 <= x -> 0 <= pow7 x.
Proof.
  intros Hx. unfold pow7. repeat apply Rmult_le_pos; assumption.
Qed.

Lemma pow7_25_pos : 0 < pow7 25.
Proof. unfold pow7. lra. Qed.

Lemma chroma_ratio_bounds (x : R) :
  0 <= x -> 0 <= pow7 x / (pow7 x + pow7 25) < 1.
Proof.
  intros Hx. assert (Hp := pow7_nonneg Hx). assert (H25 := pow7_25_pos).
  split.
  - apply Rmult_le_pos; [assumption|].
    apply Rlt_le, Rinv_0_lt_compat. lra.
  - apply Rmult_lt_reg_r with (pow7 x + pow7 25); [lra|].
    unfold Rdiv. rewrite Rmult_assoc, Rinv_l by lra. lra.
Qed.

Lemma sqrt_chroma_ratio_bounds (x : R) :
  0 <= x -> 0 <= sqrt (pow7 x / (pow7 x + pow7 25)) < 1.
Proof.
  intros Hx. destruct (chroma_ratio_bounds Hx) as [Hlo Hhi].
  split; [apply sqrt_pos|].
  rewrite <- sqrt_1. apply sqrt_lt_1_alt. lra.
Qed.

Section CiedeRanges.

Variables a1 b1 a2 b2 : R.

Lemma ac1c2_nonneg : 0 <= Ciede2k.ac1c2 a1 b1 a2 b2.
Proof.
  unfold Ciede2k.ac1c2, Ciede2k.c1, Ciede2k.c2.
  assert (H1 := hypot_nonneg a1 b1). assert (H2 := hypot_nonneg a2 b2). lra.
Qed.

Lemma g_bounds : 0 < Ciede2k.g a1 b1 a2 b2 <= 0.5.
Proof.
  unfold Ciede2k.g.
  assert (H := sqrt_chroma_ratio_bounds ac1c2_nonneg). lra.
Qed.

Lemma c1p_nonneg : 0 <= Ciede2k.c1p a1 b1 a2 b2.
Proof. apply sqrt_pos. Qed.

Lemma c2p_nonneg : 0 <= Ciede2k.c2p a1 b1 a2 b2.
Proof. apply sqrt_pos. Qed.

Lemma a1p_zero : Ciede2k.a1p a1 b1 a2 b2 = 0 <-> a1 = 0.
Proof. unfold Ciede2k.a1p. assert (H := g_bounds). split; intros; nra. Qed.

Lemma a2p_zero : Ciede2k.a2p a1 b1 a2 b2 = 0 <-> a2 = 0.
Proof. unfold Ciede2k.a2p. assert (H := g_bounds). split; intros; nra. Qed.

Lemma a1p_pos : 0 < Ciede2k.a1p a1 b1 a2 b2 <-> 0 < a1.
Proof. unfold Ciede2k.a1p. assert (H := g_bounds). split; intros; nra. Qed.

Lemma a2p_pos : 0 < Ciede2k.a2p a1 b1 a2 b2 <-> 0 < a2.
Proof. unfold Ciede2k.a2p. assert (H := g_bounds). split; intros; nra. Qed.

(** The adjusted chroma vanishes exactly when the chroma does. *)
Lemma c1p_zero : Ciede2k.c1p a1 b1 a2 b2 = 0 <-> Ciede2k.c1 a1 b1 = 0.
Proof.
  unfold Ciede2k.c1. rewrite hypot_zero.
  change (Ciede2k.c1p a1 b1 a2 b2)
    with (hypot (Ciede2k.a1p a1 b1 a2 b2) b1).
  rewrite hypot_zero, a1p_zero. reflexivity.
Qed.

Lemma c2p_zero : Ciede2k.c2p a1 b1 a2 b2 = 0 <-> Ciede2k.c2 a2 b2 = 0.
Proof.
  unfold Ciede2k.c2. rewrite hypot_zero.
  change (Ciede2k.c2p a1 b1 a2 b2)
    with (hypot (Ciede2k.a2p a1 b1 a2 b2) b2).
  rewrite hypot_zero, a2p_zero. reflexivity.
Qed.

Lemma chroma_product_zero :
  Ciede2k.c1p a1 b1 a2 b2 * Ciede2k.c2p a1 b1 a2 b2 = 0
  <-> Ciede2k.c1 a1 b1 * Ciede2k.c2 a2 b2 = 0.
Proof.
  split; intros H; apply Rmult_integral in H; destruct H as [H|H].
  - apply c1p_zero in H. rewrite H. ring.
  - apply c2p_zero in H. rewrite H. ring.
  - apply c1p_zero in H. rewrite H. ring.
  - apply c2p_zero in H. rewrite H. ring.
Qed.

Lemma acp_nonneg : 0 <= Ciede2k.acp a1 b1 a2 b2.
Proof.
  unfold Ciede2k.acp. assert (H1 := c1p_nonneg). assert (H2 := c2p_nonneg).
  lra.
Qed.

End CiedeRanges.

(* ------------------------------------------------------------------ *)
(** ** CIEDE2000: the hue term *)

Lemma Reqb_true (x y : R) : x = y -> Reqb x y = true.
Proof. intros H. unfold Reqb. now destruct (Req_dec_T x y). Qed.

Lemma Reqb_false (x y : R) : x <> y -> Reqb x y = false.
Proof. intros H. unfold Reqb. now destruct (Req_dec_T x y). Qed.

(** C2. The hue term [dhp] computed by [_ciede2kDistance] is the documented
    one: [0] when the product of the adjusted chromas is [0], and otherwise
    [2 * sqrt(C1' * C2') * sin(radians(d / 2))] with [d] the hue difference
    [h2' - h1'] brought back into half a turn.  The test the code makes on
    the product of the unadjusted chromas decides the same cases. *)
Theorem dhp_meets_doc (a1 b1 a2 b2 : R) :
  Ciede2k.dhp a1 b1 a2 b2
  = dhp_doc (Ciede2k.c1p a1 b1 a2 b2) (Ciede2k.c2p a1 b1 a2 b2)
            (Ciede2k.h1p a1 b1 a2 b2) (Ciede2k.h2p a1 b1 a2 b2).
Proof.
  unfold Ciede2k.dhp, dhp_doc.
  destruct (Req_dec_T (Ciede2k.c1p a1 b1 a2 b2 * Ciede2k.c2p a1 b1 a2 b2) 0)
    as [Hz|Hnz].
  - rewrite (Reqb_true Hz), Hz, sqrt_0. ring.
  - rewrite (Reqb_false Hnz).
    assert (Hc : Ciede2k.c1 a1 b1 * Ciede2k.c2 a2 b2 <> 0).
    { intros H. apply Hnz. now apply chroma_product_zero. }
    rewrite (Reqb_false Hc). unfold hue_delta_doc.
    f_equal. f_equal. unfold radians. field.
Qed.

(* ------------------------------------------------------------------ *)
(** ** CIEDE2000: the adjusted hue angle *)

Lemma atan2_bounds (y x : R) : - PI < atan2 y x <= PI.
Proof.
  assert (Hpi := PI_RGT_0). assert (Hb := atan_bound (y / x)).
  unfold atan2.
  destruct (Rlt_dec 0 x); [lra|].
  destruct (Rlt_dec x 0) as [Hx|Hx].
  - assert (Hyx : 0 <= y -> y / x <= 0).
    { intros Hy. unfold Rdiv.
      assert (/ x < 0) by (apply Rinv_lt_0_compat; assumption).
      nra. }
    destruct (Rle_dec 0 y) as [Hy|Hy].
    + specialize (Hyx Hy).
      destruct (Req_dec_T (y / x) 0) as [H0|H0].
      * rewrite H0, atan_0. lra.
      * assert (Hlt : atan (y / x) < atan 0) by (apply atan_increasing; lra).
        rewrite atan_0 in Hlt. lra.
    + assert (Hpos : 0 < y / x).
      { unfold Rdiv.
        assert (/ x < 0) by (apply Rinv_lt_0_compat; assumption).
        nra. }
      assert (Hlt : atan 0 < atan (y / x)) by (apply atan_increasing; lra).
      rewrite atan_0 in Hlt. lra.
  - destruct (Rlt_dec 0 y); [lra|].
    destruct (Rlt_dec y 0); lra.
Qed.

Lemma atan2_zero (y x : R) : atan2 y x = 0 <-> y = 0 /\ 0 <= x.
Proof.
  assert (Hpi := PI_RGT_0). assert (Hb := atan_bound (y / x)).
  unfold atan2.
  destruct (Rlt_dec 0 x) as [Hx|Hx].
  - split.
    + intros H. apply atan_eq0 in H. split; [|lra].
      unfold Rdiv in H. apply Rmult_integral in H. destruct H as [H|H].
      * assumption.
      * assert (0 < / x) by (apply Rinv_0_lt_compat; assumption). lra.
    + intros [-> _]. rewrite Rdiv_0_l. apply atan_0.
  - destruct (Rlt_dec x 0) as [Hx'|Hx'].
    + destruct (Rle_dec 0 y); split; intros H; lra.
    + destruct (Rlt_dec 0 y); [split; intros H; lra|].
      destruct (Rlt_dec y 0); split; intros H; lra.
Qed.

Lemma degrees_atan2_bounds (y x : R) : -180 < degrees (atan2 y x) <= 180.
Proof.
  assert (Hpi := PI_RGT_0). assert (Hb := atan2_bounds y x).
  unfold degrees.
  replace (atan2 y x * (180 / PI)) with (180 * (atan2 y x / PI))
    by (field; lra).
  assert (Hq : -1 < atan2 y x / PI <= 1).
  { split.
    - apply Rmult_lt_reg_r with PI; [lra|].
      unfold Rdiv. rewrite Rmult_assoc, Rinv_l by lra. lra.
    - apply Rmult_le_reg_r with PI; [lra|].
      unfold Rdiv. rewrite Rmult_assoc, Rinv_l by lra. lra. }
  lra.
Qed.

Lemma degrees_atan2_zero (y x : R) :
  degrees (atan2 y x) = 0 <-> y = 0 /\ 0 <= x.
Proof.
  assert (Hpi := PI_RGT_0).
  rewrite <- atan2_zero. unfold degrees. split.
  - intros H. apply Rmult_integral in H. destruct H as [H|H]; [assumption|].
    exfalso.
    assert (0 < 180 / PI) by (apply Rdiv_lt_0_compat; lra). lra.
  - intros ->. ring.
Qed.

Lemma hue_angle_range (b a' : R) : 0 <= hue_angle_doc b a' <= 360.
Proof.
  assert (Hd := degrees_atan2_bounds b a').
  unfold hue_angle_doc, Rgtb.
  destruct (Reqb a' 0 && Reqb b 0); [lra|].
  destruct (Rgt_dec (degrees (atan2 b a')) 0); lra.
Qed.

Lemma hue_angle_360 (b a' : R) :
  hue_angle_doc b a' = 360 <-> b = 0 /\ 0 < a'.
Proof.
  assert (Hd := degrees_atan2_bounds b a').
  assert (Hz := degrees_atan2_zero b a').
  unfold hue_angle_doc, Rgtb, Reqb.
  destruct (Req_dec_T a' 0) as [Ha|Ha]; destruct (Req_dec_T b 0) as [Hb|Hb];
    cbn [andb];
    try (destruct (Rgt_dec (degrees (atan2 b a')) 0));
    (split; intros H;
     [ try lra;
       assert (Hdeg : degrees (atan2 b a') = 0) by lra;
       apply Hz in Hdeg; lra
     | try lra;
       assert (Hdeg : degrees (atan2 b a') = 0) by (apply Hz; lra); lra ]).
Qed.

Lemma h1p_rule (a1 b1 a2 b2 : R) :
  Ciede2k.h1p a1 b1 a2 b2 = hue_angle_doc b1 (Ciede2k.a1p a1 b1 a2 b2).
Proof.
  unfold Ciede2k.h1p, Ciede2k.h1pd, hue_angle_doc.
  now rewrite andb_comm.
Qed.

Lemma h2p_rule (a1 b1 a2 b2 : R) :
  Ciede2k.h2p a1 b1 a2 b2 = hue_angle_doc b2 (Ciede2k.a2p a1 b1 a2 b2).
Proof.
  unfold Ciede2k.h2p, Ciede2k.h2pd, hue_angle_doc.
  now rewrite andb_comm.
Qed.

Lemma hue_angle_negative_axis (a' : R) : a' < 0 -> hue_angle_doc 0 a' = 180.
Proof.
  intros Ha. assert (Hpi := PI_RGT_0).
  assert (Hat : atan2 0 a' = PI).
  { unfold atan2.
    destruct (Rlt_dec 0 a'); [lra|].
    destruct (Rlt_dec a' 0); [|lra].
    destruct (Rle_dec 0 0); [|lra].
    rewrite Rdiv_0_l, atan_0. ring. }
  assert (Hdeg : degrees (atan2 0 a') = 180).
  { rewrite Hat. unfold degrees. field. lra. }
  unfold hue_angle_doc. rewrite Hdeg.
  rewrite (@Reqb_false a' 0) by lra. cbn [andb].
  unfold Rgtb. destruct (Rgt_dec 180 0); [reflexivity | lra].
Qed.

(** C4, at the colours [(55, 85, 0)] and [(74, -48, 0)].  The first adjusted
    hue angle is 360, outside the half-open interval from 0 to 360: [atan2]
    gives 0, which the test [h1pd > 0] sends to [0 + 360].  With it the hue
    difference selected in [dhp] is -180 where the hue 0 would give 180,
    so that [dhp] is negative, and the mean hue is 270 where the hue 0
    would give 90. *)
Theorem hue_angle_360_on_axis :
  Ciede2k.h1p 85 0 (-48) 0 = 360
  /\ ~ (0 <= Ciede2k.h1p 85 0 (-48) 0 < 360)
  /\ Ciede2k.h2p 85 0 (-48) 0 = 180
  /\ Ciede2k.ahp 85 0 (-48) 0 = 270
  /\ Ciede2k.dhp 85 0 (-48) 0
     = - (2 * sqrt (Ciede2k.c1p 85 0 (-48) 0 * Ciede2k.c2p 85 0 (-48) 0)).
Proof.
  assert (Hpi := PI_RGT_0).
  assert (H1 : Ciede2k.h1p 85 0 (-48) 0 = 360).
  { rewrite h1p_rule. apply hue_angle_360. split; [reflexivity|].
    apply a1p_pos. lra. }
  assert (H2 : Ciede2k.h2p 85 0 (-48) 0 = 180).
  { rewrite h2p_rule. apply hue_angle_negative_axis.
    assert (Hg := g_bounds 85 0 (-48) 0). unfold Ciede2k.a2p. nra. }
  assert (Hc : Ciede2k.c1 85 0 * Ciede2k.c2 (-48) 0 <> 0).
  { intros H. apply Rmult_integral in H.
    destruct H as [H|H]; apply hypot_zero in H; lra. }
  assert (Hle : Rleb (Rabs (180 - 360)) 180 = true).
  { unfold Rleb. destruct (Rle_dec (Rabs (180 - 360)) 180) as [|Hn];
      [reflexivity|].
    exfalso. apply Hn. unfold Rabs. destruct (Rcase_abs (180 - 360)); lra. }
  assert (Hle' : Rleb (Rabs (360 - 180)) 180 = true).
  { unfold Rleb. destruct (Rle_dec (Rabs (360 - 180)) 180) as [|Hn];
      [reflexivity|].
    exfalso. apply Hn. unfold Rabs. destruct (Rcase_abs (360 - 180)); lra. }
  split; [exact H1|]. split; [rewrite H1; lra|]. split; [exact H2|]. split.
  - unfold Ciede2k.ahp. rewrite (Reqb_false Hc), H1, H2, Hle'. lra.
  - unfold Ciede2k.dhp. rewrite (Reqb_false Hc), H1, H2, Hle.
    replace (radians (180 - 360) / 2) with (- (PI / 2))
      by (unfold radians; field).
    rewrite sin_neg, sin_PI2. ring.
Qed.

(* ------------------------------------------------------------------ *)
(** ** CIEDE2000: divisors and square roots, over the reals *)

Lemma rotated_sum_nonneg (X Y Z r : R) :
  -2 <= r <= 2 -> 0 <= X * X + Y * Y + Z * Z + r * Y * Z.
Proof.
  intros Hr.
  assert (HX := Rle_0_sqr X). assert (Hp := Rle_0_sqr (Y + Z)).
  assert (Hm := Rle_0_sqr (Y - Z)). unfold Rsqr in *.
  destruct (Rle_dec 0 (Y * Z)); nra.
Qed.

Section CiedeDefined.

Variables l1 a1 b1 l2 a2 b2 : R.

Lemma t_lower : 0.07 <= Ciede2k.t a1 b1 a2 b2.
Proof.
  unfold Ciede2k.t.
  set (h := Ciede2k.ahp a1 b1 a2 b2).
  assert (H1 := COS_bound (radians (h - 30))).
  assert (H2 := COS_bound (radians (2 * h))).
  assert (H3 := COS_bound (radians (3 * h + 6))).
  assert (H4 := COS_bound (radians (4 * h - 63))).
  lra.
Qed.

Lemma sc_lower : 1 <= Ciede2k.sc a1 b1 a2 b2.
Proof. unfold Ciede2k.sc. assert (H := acp_nonneg a1 b1 a2 b2). lra. Qed.

Lemma sh_lower : 1 <= Ciede2k.sh a1 b1 a2 b2.
Proof.
  unfold Ciede2k.sh.
  assert (H := acp_nonneg a1 b1 a2 b2). assert (Ht := t_lower). nra.
Qed.

Lemma sl_root_pos : 0 < sqrt (20 + pow2 (Ciede2k.al l1 l2 - 50)).
Proof.
  apply sqrt_lt_R0. unfold pow2.
  assert (H := Rle_0_sqr (Ciede2k.al l1 l2 - 50)). unfold Rsqr in H. lra.
Qed.

Lemma sl_lower : 1 <= Ciede2k.sl l1 l2.
Proof.
  unfold Ciede2k.sl. assert (Hs := sl_root_pos).
  assert (0 <= 0.015 * pow2 (Ciede2k.al l1 l2 - 50)
               / sqrt (20 + pow2 (Ciede2k.al l1 l2 - 50))).
  { apply Rmult_le_pos.
    - unfold pow2.
      assert (H := Rle_0_sqr (Ciede2k.al l1 l2 - 50)). unfold Rsqr in H. lra.
    - apply Rlt_le, Rinv_0_lt_compat, Hs. }
  lra.
Qed.

Lemma rc_bounds : 0 <= Ciede2k.rc a1 b1 a2 b2 < 1.
Proof. apply sqrt_chroma_ratio_bounds, acp_nonneg. Qed.

Lemma rt_bounds : -2 <= Ciede2k.rt a1 b1 a2 b2 <= 2.
Proof.
  unfold Ciede2k.rt. assert (Hr := rc_bounds).
  assert (Hs := SIN_bound (radians (2 * Ciede2k.dro a1 b1 a2 b2))).
  nra.
Qed.

Lemma radicand_nonneg : 0 <= Ciede2k.radicand l1 a1 b1 l2 a2 b2.
Proof.
  unfold Ciede2k.radicand, pow2.
  rewrite Rmult_assoc. rewrite <- (Rmult_assoc (Ciede2k.rt a1 b1 a2 b2)).
  apply rotated_sum_nonneg, rt_bounds.
Qed.

End CiedeDefined.

(** X15.  Over the exact reals, no divisor of [_ciede2kDistance] is zero and
    no argument of a square root is negative, the argument of the final
    square root included, whatever the six inputs. *)
Theorem ciede2k_side_conditions (l1 a1 b1 l2 a2 b2 : R) :
  ciede2k_defined l1 a1 b1 l2 a2 b2.
Proof.
  assert (Hac := ac1c2_nonneg a1 b1 a2 b2).
  assert (Hacp := acp_nonneg a1 b1 a2 b2).
  assert (H25 := pow7_25_pos).
  assert (Hpi := PI_RGT_0).
  assert (Hsl := sl_lower l1 l2).
  assert (Hsc := sc_lower a1 b1 a2 b2).
  assert (Hsh := sh_lower a1 b1 a2 b2).
  assert (Hroot := sl_root_pos l1 l2).
  assert (Hrad := radicand_nonneg l1 a1 b1 l2 a2 b2).
  unfold ciede2k_defined, Ciede2k.kl, Ciede2k.kc, Ciede2k.kh.
  repeat split; try assumption.
  - apply sum_squares_nonneg.
  - apply sum_squares_nonneg.
  - assert (H := pow7_nonneg Hac). lra.
  - apply chroma_ratio_bounds, Hac.
  - apply sum_squares_nonneg.
  - apply sum_squares_nonneg.
  - lra.
  - apply Rmult_le_pos; [apply c1p_nonneg | apply c2p_nonneg].
  - assert (H := pow7_nonneg Hacp). lra.
  - apply chroma_ratio_bounds, Hacp.
  - assert (H := Rle_0_sqr (Ciede2k.al l1 l2 - 50)).
    unfold Rsqr in H. unfold pow2. lra.
  - lra.
  - lra.
  - lra.
  - lra.
Qed.

(* ------------------------------------------------------------------ *)
(** ** CIEDE2000: exchanging the two colours *)

Lemma Rleb_Rabs_opp (d : R) : Rleb (Rabs (- d)) 180 = Rleb (Rabs d) 180.
Proof. now rewrite Rabs_Ropp. Qed.

(** The selection of the hue difference in [dhp] is an odd function of the
    raw difference. *)
Lemma hue_selection_odd (zero : bool) (d : R) :
  (if zero then 0
   else if Rleb (Rabs (- d)) 180 then - d
   else if Rgtb (- d) 180 then - d - 360
   else - d + 360)
  = - (if zero then 0
       else if Rleb (Rabs d) 180 then d
       else if Rgtb d 180 then d - 360
       else d + 360).
Proof.
  destruct zero; [ring|].
  rewrite Rleb_Rabs_opp. unfold Rleb, Rgtb.
  destruct (Rle_dec (Rabs d) 180) as [Hle|Hgt]; [reflexivity|].
  assert (Habs : 180 < d \/ d < -180).
  { apply Rnot_le_lt in Hgt. unfold Rabs in Hgt.
    destruct (Rcase_abs d); lra. }
  destruct (Rgt_dec (- d) 180), (Rgt_dec d 180); lra.
Qed.

Section CiedeSwap.

Variables l1 a1 b1 l2 a2 b2 : R.

Lemma g_swap : Ciede2k.g a2 b2 a1 b1 = Ciede2k.g a1 b1 a2 b2.
Proof.
  unfold Ciede2k.g, Ciede2k.ac1c2, Ciede2k.c1, Ciede2k.c2.
  now rewrite (Rplus_comm (hypot a2 b2)).
Qed.

Lemma a1p_swap : Ciede2k.a1p a2 b2 a1 b1 = Ciede2k.a2p a1 b1 a2 b2.
Proof. unfold Ciede2k.a1p, Ciede2k.a2p. now rewrite g_swap. Qed.

Lemma a2p_swap : Ciede2k.a2p a2 b2 a1 b1 = Ciede2k.a1p a1 b1 a2 b2.
Proof. unfold Ciede2k.a1p, Ciede2k.a2p. now rewrite g_swap. Qed.

Lemma c1p_swap : Ciede2k.c1p a2 b2 a1 b1 = Ciede2k.c2p a1 b1 a2 b2.
Proof. unfold Ciede2k.c1p, Ciede2k.c2p. now rewrite a1p_swap. Qed.

Lemma c2p_swap : Ciede2k.c2p a2 b2 a1 b1 = Ciede2k.c1p a1 b1 a2 b2.
Proof. unfold Ciede2k.c1p, Ciede2k.c2p. now rewrite a2p_swap. Qed.

Lemma h1p_swap : Ciede2k.h1p a2 b2 a1 b1 = Ciede2k.h2p a1 b1 a2 b2.
Proof.
  unfold Ciede2k.h1p, Ciede2k.h2p, Ciede2k.h1pd, Ciede2k.h2pd.
  now rewrite a1p_swap.
Qed.

Lemma h2p_swap : Ciede2k.h2p a2 b2 a1 b1 = Ciede2k.h1p a1 b1 a2 b2.
Proof.
  unfold Ciede2k.h1p, Ciede2k.h2p, Ciede2k.h1pd, Ciede2k.h2pd.
  now rewrite a2p_swap.
Qed.

Lemma chroma_product_swap :
  Ciede2k.c1 a2 b2 * Ciede2k.c2 a1 b1 = Ciede2k.c1 a1 b1 * Ciede2k.c2 a2 b2.
Proof. unfold Ciede2k.c1, Ciede2k.c2. ring. Qed.

Lemma dlp_swap : Ciede2k.dlp l2 l1 = - Ciede2k.dlp l1 l2.
Proof. unfold Ciede2k.dlp. ring. Qed.

Lemma dcp_swap : Ciede2k.dcp a2 b2 a1 b1 = - Ciede2k.dcp a1 b1 a2 b2.
Proof. unfold Ciede2k.dcp. rewrite c1p_swap, c2p_swap. ring. Qed.

Lemma dhp_swap : Ciede2k.dhp a2 b2 a1 b1 = - Ciede2k.dhp a1 b1 a2 b2.
Proof.
  unfold Ciede2k.dhp.
  rewrite c1p_swap, c2p_swap, h1p_swap, h2p_swap, chroma_product_swap.
  replace (Ciede2k.h1p a1 b1 a2 b2 - Ciede2k.h2p a1 b1 a2 b2)
    with (- (Ciede2k.h2p a1 b1 a2 b2 - Ciede2k.h1p a1 b1 a2 b2)) by ring.
  rewrite hue_selection_odd.
  rewrite (Rmult_comm (Ciede2k.c2p a1 b1 a2 b2)).
  unfold radians.
  match goal with
  | |- _ * sin (- ?x * ?k / 2) = _ =>
      replace (- x * k / 2) with (- (x * k / 2)) by field
  end.
  rewrite sin_neg. ring.
Qed.

Lemma al_swap : Ciede2k.al l2 l1 = Ciede2k.al l1 l2.
Proof. unfold Ciede2k.al. now rewrite Rplus_comm. Qed.

Lemma acp_swap : Ciede2k.acp a2 b2 a1 b1 = Ciede2k.acp a1 b1 a2 b2.
Proof.
  unfold Ciede2k.acp. rewrite c1p_swap, c2p_swap. now rewrite Rplus_comm.
Qed.

Lemma ahp_swap : Ciede2k.ahp a2 b2 a1 b1 = Ciede2k.ahp a1 b1 a2 b2.
Proof.
  unfold Ciede2k.ahp.
  rewrite h1p_swap, h2p_swap, chroma_product_swap.
  rewrite (Rabs_minus_sym (Ciede2k.h2p a1 b1 a2 b2)).
  now rewrite (Rplus_comm (Ciede2k.h2p a1 b1 a2 b2)).
Qed.

Lemma t_swap : Ciede2k.t a2 b2 a1 b1 = Ciede2k.t a1 b1 a2 b2.
Proof. unfold Ciede2k.t. now rewrite ahp_swap. Qed.

Lemma dro_swap : Ciede2k.dro a2 b2 a1 b1 = Ciede2k.dro a1 b1 a2 b2.
Proof. unfold Ciede2k.dro. now rewrite ahp_swap. Qed.

Lemma rc_swap : Ciede2k.rc a2 b2 a1 b1 = Ciede2k.rc a1 b1 a2 b2.
Proof. unfold Ciede2k.rc. now rewrite acp_swap. Qed.

Lemma sl_swap : Ciede2k.sl l2 l1 = Ciede2k.sl l1 l2.
Proof. unfold Ciede2k.sl. now rewrite al_swap. Qed.

Lemma sc_swap : Ciede2k.sc a2 b2 a1 b1 = Ciede2k.sc a1 b1 a2 b2.
Proof. unfold Ciede2k.sc. now rewrite acp_swap. Qed.

Lemma sh_swap : Ciede2k.sh a2 b2 a1 b1 = Ciede2k.sh a1 b1 a2 b2.
Proof. unfold Ciede2k.sh. now rewrite acp_swap, t_swap. Qed.

Lemma rt_swap : Ciede2k.rt a2 b2 a1 b1 = Ciede2k.rt a1 b1 a2 b2.
Proof. unfold Ciede2k.rt. now rewrite rc_swap, dro_swap. Qed.

Lemma radicand_swap :
  Ciede2k.radicand l2 a2 b2 l1 a1 b1 = Ciede2k.radicand l1 a1 b1 l2 a2 b2.
Proof.
  unfold Ciede2k.radicand.
  rewrite dlp_swap, dcp_swap, dhp_swap, sl_swap, sc_swap, sh_swap, rt_swap.
  unfold pow2, Rdiv. ring.
Qed.

End CiedeSwap.

(** Identical colours are at distance [0]. *)
Lemma ciede2k_identity (l a b : R) :
  Ciede2k._ciede2kDistance l a b l a b = 0.
Proof.
  assert (Hdl : Ciede2k.dlp l l = 0) by (unfold Ciede2k.dlp; ring).
  assert (Hdc : Ciede2k.dcp a b a b = 0).
  { unfold Ciede2k.dcp, Ciede2k.c1p, Ciede2k.c2p, Ciede2k.a1p, Ciede2k.a2p.
    ring. }
  unfold Ciede2k._ciede2kDistance, Ciede2k.radicand.
  rewrite Hdl, Hdc. unfold pow2, Rdiv.
  replace (_ + _ + _ + _)
    with (Ciede2k.dhp a b a b * / (Ciede2k.sh a b a b * Ciede2k.kh)
          * (Ciede2k.dhp a b a b * / (Ciede2k.sh a b a b * Ciede2k.kh)))
    by ring.
  assert (Hdh : Ciede2k.dhp a b a b = 0).
  { assert (H := dhp_swap a b a b). lra. }
  rewrite Hdh. rewrite !Rmult_0_l. apply sqrt_0.
Qed.

(** C1. [_ciede2kDistance] is symmetric: exchanging the two colours leaves
    the result unchanged (the lightness, chroma and hue differences change
    sign, the mean hue and the weights do not change). *)
Theorem ciede2k_symmetric (l1 a1 b1 l2 a2 b2 : R) :
  Ciede2k._ciede2kDistance l1 a1 b1 l2 a2 b2
  = Ciede2k._ciede2kDistance l2 a2 b2 l1 a1 b1.
Proof.
  unfold Ciede2k._ciede2kDistance. now rewrite radicand_swap.
Qed.

(* ================================================================== *)
(** * Further properties of the class *)

(* ------------------------------------------------------------------ *)
(** ** Normalising and parsing *)

(** X1. [normalizeHex] is idempotent on every value it can be given,
    [null] included: a second normalisation changes nothing. *)
Theorem normalizeHex_twice (v : option string) :
  normalizeHex (normalizeHex v) = normalizeHex v.
Proof.
  destruct (normalizeHex v) as [n|] eqn:Hn; [|reflexivity].
  destruct v as [s|]; [|discriminate Hn].
  exact (normalizeHex_idempotent _ Hn).
Qed.

(** X2. [parseHex] absorbs a preceding [normalizeHex] (as in the
    constructor, which normalises and then parses), and it returns [null]
    exactly when [normalizeHex] does. *)
Theorem parseHex_absorbs_normalizeHex
    (convert_hex_rgb : string -> R * R * R) (v : option string) :
  parseHex convert_hex_rgb (normalizeHex v) = parseHex convert_hex_rgb v
  /\ (parseHex convert_hex_rgb v = None <-> normalizeHex v = None).
Proof.
  unfold parseHex. split.
  - destruct v as [s|]; [|reflexivity].
    destruct (normalizeHex (Some s)) as [n|] eqn:Hn; [|reflexivity].
    now rewrite (normalizeHex_idempotent _ Hn).
  - destruct (normalizeHex v) as [n|].
    + destruct (convert_hex_rgb n) as [[r g] b]. split; discriminate.
    + split; reflexivity.
Qed.

(* ------------------------------------------------------------------ *)
(** ** What the constructor builds *)

Section ConstructorFields.

Variable convert_hex_rgb : string -> R * R * R.
Variable convert_rgb_hsv : R * R * R -> R * R * R.

Lemma constructor_fields (s n : string) :
  normalizeHex (Some s) = Some n ->
  constructor convert_hex_rgb convert_rgb_hsv s
  = let '(r, g, b) := convert_hex_rgb n in
    let '(h, sat, v) := convert_rgb_hsv (r, g, b) in
    Ok (mkColor (Some s) (Some n) (Some (mkRGB r g b))
                (Some (mkHSV h sat v))).
Proof.
  intros Hn. unfold constructor. cbn. rewrite Hn.
  unfold parseHex. rewrite (normalizeHex_idempotent _ Hn).
  destruct (convert_hex_rgb n) as [[r g] b]. cbn.
  destruct (convert_rgb_hsv (r, g, b)) as [[h sat] v]. reflexivity.
Qed.

Lemma constructor_Ok_normalizes (s : string) (c : Color) :
  constructor convert_hex_rgb convert_rgb_hsv s = Ok c ->
  exists n, normalizeHex (Some s) = Some n.
Proof.
  intros Hc. destruct (normalizeHex (Some s)) as [n|] eqn:Hn.
  - now exists n.
  - rewrite (constructor_invalid _ _ _ Hn) in Hc. discriminate Hc.
Qed.

End ConstructorFields.

(** X3. In every object the constructor returns, [original] is the input,
    [hex] is its normal form, a [#] followed by six hex digits, [rgb] is
    the conversion of [hex], and [hsv] is the conversion of [rgb]. *)
Theorem constructor_derives_fields
    (convert_hex_rgb : string -> R * R * R)
    (convert_rgb_hsv : R * R * R -> R * R * R) (s : string) (c : Color) :
  constructor convert_hex_rgb convert_rgb_hsv s = Ok c ->
  exists (n : string) (r g b h sat v : R),
    original c = Some s
    /\ hex c = Some n /\ normalizeHex (Some s) = Some n /\ LongHex n
    /\ rgb c = Some (mkRGB r g b) /\ convert_hex_rgb n = (r, g, b)
    /\ hsv c = Some (mkHSV h sat v) /\ convert_rgb_hsv (r, g, b) = (h, sat, v).
Proof.
  intros Hc.
  destruct (constructor_Ok_normalizes _ _ _ Hc) as [n Hn].
  rewrite (constructor_fields _ _ _ Hn) in Hc.
  destruct (convert_hex_rgb n) as [[r g] b] eqn:Hrgb.
  destruct (convert_rgb_hsv (r, g, b)) as [[h sat] v] eqn:Hhsv.
  injection Hc as <-.
  exists n, r, g, b, h, sat, v. cbn.
  repeat split; try assumption.
  exact (normalizeHex_LongHex _ Hn).
Qed.

Lemma constructor_derives_fields_witness :
  constructor no_convert no_convert "#abc" = Ok sample_abc
  /\ exists (n : string) (r g b h sat v : R),
    original sample_abc = Some "#abc"%string
    /\ hex sample_abc = Some n
    /\ normalizeHex (Some "#abc"%string) = Some n /\ LongHex n
    /\ rgb sample_abc = Some (mkRGB r g b) /\ no_convert n = (r, g, b)
    /\ hsv sample_abc = Some (mkHSV h sat v)
    /\ no_convert (r, g, b) = (h, sat, v).
Proof.
  assert (H : constructor no_convert no_convert "#abc" = Ok sample_abc)
    by reflexivity.
  split; [exact H|].
  exact (@constructor_derives_fields no_convert no_convert "#abc"%string
           sample_abc H).
Defined.

(** X4. Constructing from the normal form of an input gives the same
    object as constructing from the input, up to [original]. *)
Theorem constructor_of_normal_form
    (convert_hex_rgb : string -> R * R * R)
    (convert_rgb_hsv : R * R * R -> R * R * R) (s n : string) (c : Color) :
  constructor convert_hex_rgb convert_rgb_hsv s = Ok c ->
  hex c = Some n ->
  constructor convert_hex_rgb convert_rgb_hsv n
  = Ok (set_original c (Some n)).
Proof.
  intros Hc Hhex.
  destruct (constructor_Ok_normalizes _ _ _ Hc) as [m Hm].
  assert (Hn := constructor_fields convert_hex_rgb convert_rgb_hsv _
                  (normalizeHex_idempotent _ Hm)).
  rewrite (constructor_fields _ _ _ Hm) in Hc.
  destruct (convert_hex_rgb m) as [[r g] b].
  destruct (convert_rgb_hsv (r, g, b)) as [[h sat] v].
  injection Hc as <-. cbn in Hhex. injection Hhex as <-.
  exact Hn.
Qed.

Lemma constructor_of_normal_form_witness :
  constructor no_convert no_convert "#abc" = Ok sample_abc
  /\ hex sample_abc = Some "#aabbcc"%string
  /\ constructor no_convert no_convert "#aabbcc"
     = Ok (set_original sample_abc (Some "#aabbcc"%string)).
Proof.
  assert (H1 : constructor no_convert no_convert "#abc" = Ok sample_abc)
    by reflexivity.
  assert (H2 : hex sample_abc = Some "#aabbcc"%string) by reflexivity.
  split; [exact H1|]. split; [exact H2|].
  exact (@constructor_of_normal_form no_convert no_convert "#abc"%string
           "#aabbcc"%string sample_abc H1 H2).
Defined.

(* ------------------------------------------------------------------ *)
(** ** Distances between constructed objects *)

Lemma constructor_populated
    (convert_hex_rgb : string -> R * R * R)
    (convert_rgb_hsv : R * R * R -> R * R * R) (s : string) (c : Color) :
  constructor convert_hex_rgb convert_rgb_hsv s = Ok c -> populated c.
Proof.
  intros Hc.
  destruct (constructor_Ok_normalizes _ _ _ Hc) as [n Hn].
  destruct (constructor_valid convert_hex_rgb convert_rgb_hsv _ Hn)
    as (c' & Hc' & _ & _ & Hp).
  rewrite Hc in Hc'. now injection Hc' as <-.
Qed.

Section DistanceOnPopulated.

Variable convert_hex_lab : string -> R * R * R.
Variables a b : Color.
Hypothesis Ha : populated a.
Hypothesis Hb : populated b.

Lemma rgbDistance_nonneg_populated :
  exists d, rgbDistance a b = Ok d /\ 0 <= d.
Proof.
  destruct Ha as (_ & _ & Hra & _), Hb as (_ & _ & Hrb & _).
  destruct (rgb a) as [x|] eqn:Hx; [|contradiction].
  destruct (rgb b) as [y|] eqn:Hy; [|contradiction].
  eexists. split; [exact (rgbDistance_populated _ _ Hx Hy) | apply sqrt_pos].
Qed.

Lemma hsvDistance_nonneg_populated :
  exists d, hsvDistance a b = Ok d /\ 0 <= d.
Proof.
  destruct Ha as (_ & _ & _ & Hha).
  destruct (hsv a) as [x|] eqn:Hx; [|contradiction].
  exists 0. split; [exact (hsvDistance_populated a b Hx) | lra].
Qed.

Lemma ciede2kDistance_nonneg_populated :
  exists d, ciede2kDistance convert_hex_lab a b = Ok d /\ 0 <= d.
Proof.
  destruct Ha as (_ & Hxa & _ & _), Hb as (_ & Hxb & _ & _).
  unfold ciede2kDistance.
  destruct (hex a) as [h1|]; [|contradiction].
  destruct (hex b) as [h2|]; [|contradiction].
  destruct (convert_hex_lab h1) as [[l1 a1] b1].
  destruct (convert_hex_lab h2) as [[l2 a2] b2].
  eexists. split; [reflexivity | apply sqrt_pos].
Qed.

Lemma rgbDistance_swap_populated : rgbDistance a b = rgbDistance b a.
Proof.
  destruct Ha as (_ & _ & Hra & _), Hb as (_ & _ & Hrb & _).
  destruct (rgb a) as [x|] eqn:Hx; [|contradiction].
  destruct (rgb b) as [y|] eqn:Hy; [|contradiction].
  rewrite (rgbDistance_populated _ _ Hx Hy), (rgbDistance_populated _ _ Hy Hx).
  do 2 f_equal. unfold sq3, pow2. ring.
Qed.

Lemma hsvDistance_swap_populated : hsvDistance a b = hsvDistance b a.
Proof.
  destruct Ha as (_ & _ & _ & Hha), Hb as (_ & _ & _ & Hhb).
  destruct (hsv a) as [x|] eqn:Hx; [|contradiction].
  destruct (hsv b) as [y|] eqn:Hy; [|contradiction].
  now rewrite (hsvDistance_populated a b Hx), (hsvDistance_populated b a Hy).
Qed.

End DistanceOnPopulated.

Lemma ciede2kDistance_swap
    (convert_hex_lab : string -> R * R * R) (a b : Color) :
  ciede2kDistance convert_hex_lab a b = ciede2kDistance convert_hex_lab b a.
Proof.
  unfold ciede2kDistance.
  destruct (hex a) as [h1|], (hex b) as [h2|]; try reflexivity.
  destruct (convert_hex_lab h1) as [[l1 a1] b1].
  destruct (convert_hex_lab h2) as [[l2 a2] b2].
  f_equal. unfold Ciede2k._ciede2kDistance. now rewrite radicand_swap.
Qed.

Lemma distance_routes
    (convert_hex_lab : string -> R * R * R) (a b : Color) :
  distance convert_hex_lab a b "RGB" = rgbDistance a b
  /\ distance convert_hex_lab a b "HSV" = hsvDistance a b
  /\ distance convert_hex_lab a b "CIEDE2000"
     = ciede2kDistance convert_hex_lab a b.
Proof. repeat split. Qed.

(** X5. For two objects the constructor returned and each of the three
    algorithm identifiers, [distance] returns a number, and that number is
    not negative: no exception is possible on this path. *)
Theorem distance_of_constructed
    (convert_hex_rgb : string -> R * R * R)
    (convert_rgb_hsv : R * R * R -> R * R * R)
    (convert_hex_lab : string -> R * R * R)
    (s1 s2 : string) (c1 c2 : Color) (algorithmType : string) :
  constructor convert_hex_rgb convert_rgb_hsv s1 = Ok c1 ->
  constructor convert_hex_rgb convert_rgb_hsv s2 = Ok c2 ->
  In algorithmType ["RGB"; "HSV"; "CIEDE2000"]%string ->
  exists d : R, distance convert_hex_lab c1 c2 algorithmType = Ok d /\ 0 <= d.
Proof.
  intros H1 H2 Halg.
  apply constructor_populated in H1, H2.
  destruct (distance_routes convert_hex_lab c1 c2) as (Hr & Hh & Hc).
  destruct Halg as [<-|[<-|[<-|[]]]].
  - rewrite Hr. now apply rgbDistance_nonneg_populated.
  - rewrite Hh. now apply hsvDistance_nonneg_populated.
  - rewrite Hc. now apply ciede2kDistance_nonneg_populated.
Qed.

Lemma distance_of_constructed_witness :
  constructor no_convert no_convert "#abc" = Ok sample_abc
  /\ constructor no_convert no_convert "#abc" = Ok sample_abc
  /\ In "CIEDE2000"%string ["RGB"; "HSV"; "CIEDE2000"]%string
  /\ exists d : R,
       distance no_convert sample_abc sample_abc "CIEDE2000" = Ok d /\ 0 <= d.
Proof.
  assert (H : constructor no_convert no_convert "#abc" = Ok sample_abc)
    by reflexivity.
  assert (Hin : In "CIEDE2000"%string ["RGB"; "HSV"; "CIEDE2000"]%string)
    by (right; right; left; reflexivity).
  split; [exact H|]. split; [exact H|]. split; [exact Hin|].
  exact (@distance_of_constructed no_convert no_convert no_convert
           "#abc"%string "#abc"%string sample_abc sample_abc
           "CIEDE2000"%string H H Hin).
Defined.

(** X6. On two fully populated objects [distance] is symmetric for every
    algorithm identifier: the three methods give the same number in both
    orders, and an unknown identifier throws in both orders. *)
Theorem distance_symmetric_populated
    (convert_hex_lab : string -> R * R * R) (a b : Color)
    (algorithmType : string) :
  populated a -> populated b ->
  distance convert_hex_lab a b algorithmType
  = distance convert_hex_lab b a algorithmType.
Proof.
  intros Ha Hb.
  destruct (String.eqb_spec algorithmType "RGB") as [->|Hr].
  { destruct (distance_routes convert_hex_lab a b) as (-> & _ & _).
    destruct (distance_routes convert_hex_lab b a) as (-> & _ & _).
    now apply rgbDistance_swap_populated. }
  destruct (String.eqb_spec algorithmType "HSV") as [->|Hh].
  { destruct (distance_routes convert_hex_lab a b) as (_ & -> & _).
    destruct (distance_routes convert_hex_lab b a) as (_ & -> & _).
    now apply hsvDistance_swap_populated. }
  destruct (String.eqb_spec algorithmType "CIEDE2000")
    as [->|Hc].
  { destruct (distance_routes convert_hex_lab a b) as (_ & _ & ->).
    destruct (distance_routes convert_hex_lab b a) as (_ & _ & ->).
    apply ciede2kDistance_swap. }
  now rewrite !distance_unknown by assumption.
Qed.

Lemma distance_symmetric_populated_witness :
  populated sample_black /\ populated sample_white
  /\ distance no_convert sample_black sample_white "RGB"
     = distance no_convert sample_white sample_black "RGB".
Proof.
  assert (H1 : populated sample_black) by (repeat split; discriminate).
  assert (H2 : populated sample_white) by (repeat split; discriminate).
  split; [exact H1|]. split; [exact H2|].
  exact (@distance_symmetric_populated no_convert sample_black sample_white
           "RGB"%string H1 H2).
Defined.

(** X7. A colour is at CIEDE2000 distance [0] from itself, for the formula
    and for the method (which throws when [hex] is [null]). *)
Theorem ciede2kDistance_self
    (convert_hex_lab : string -> R * R * R) :
  (forall l a b : R, Ciede2k._ciede2kDistance l a b l a b = 0)
  /\ forall c : Color,
       ciede2kDistance convert_hex_lab c c
       = match hex c with
         | Some _ => Ok 0
         | None => Throw TypeError
         end.
Proof.
  split; [exact ciede2k_identity|].
  intros c. unfold ciede2kDistance.
  destruct (hex c) as [h|]; [|reflexivity].
  destruct (convert_hex_lab h) as [[l a] b].
  now rewrite ciede2k_identity.
Qed.

(** X8. With channels between 0 and 255, as a hex colour has them,
    [rgbDistance] is at most the length of the diagonal of the RGB cube,
    [sqrt(3 * 255^2)]. *)
Theorem rgbDistance_bounded (ca cb : Color) (x y : RGB) :
  rgb ca = Some x -> rgb cb = Some y ->
  0 <= rgb_r x <= 255 -> 0 <= rgb_g x <= 255 -> 0 <= rgb_b x <= 255 ->
  0 <= rgb_r y <= 255 -> 0 <= rgb_g y <= 255 -> 0 <= rgb_b y <= 255 ->
  exists d : R, rgbDistance ca cb = Ok d /\ d <= sqrt 195075.
Proof.
  intros Hx Hy Hrx Hgx Hbx Hry Hgy Hby.
  eexists. split; [exact (rgbDistance_populated _ _ Hx Hy)|].
  apply sqrt_le_1_alt. unfold sq3, pow2.
  assert (Hr : (rgb_r x - rgb_r y) * (rgb_r x - rgb_r y) <= 65025) by nra.
  assert (Hg : (rgb_g x - rgb_g y) * (rgb_g x - rgb_g y) <= 65025) by nra.
  assert (Hb : (rgb_b x - rgb_b y) * (rgb_b x - rgb_b y) <= 65025) by nra.
  lra.
Qed.

Lemma rgbDistance_bounded_witness :
  rgb sample_black = Some (mkRGB 0 0 0)
  /\ rgb sample_white = Some (mkRGB 255 255 255)
  /\ exists d : R,
       rgbDistance sample_black sample_white = Ok d /\ d <= sqrt 195075.
Proof.
  split; [reflexivity|]. split; [reflexivity|].
  apply (@rgbDistance_bounded sample_black sample_white
           (mkRGB 0 0 0) (mkRGB 255 255 255));
    try reflexivity; cbn; lra.
Defined.

(* ------------------------------------------------------------------ *)
(** ** CIEDE2000: ranges of the weighting terms *)

Lemma exp_neg_square_bounds (y : R) : 0 < exp (- (pow2 y)) <= 1.
Proof.
  split; [apply exp_pos|].
  assert (Hsq := Rle_0_sqr y). unfold Rsqr in Hsq. unfold pow2.
  destruct (Req_dec_T (y * y) 0) as [H0|H0].
  - rewrite H0, Ropp_0, exp_0. lra.
  - rewrite <- exp_0. apply Rlt_le, exp_increasing. lra.
Qed.

Section CiedeWeights.

Variables l1 a1 b1 l2 a2 b2 : R.

Lemma t_upper : Ciede2k.t a1 b1 a2 b2 <= 1.93.
Proof.
  unfold Ciede2k.t.
  set (h := Ciede2k.ahp a1 b1 a2 b2).
  assert (H1 := COS_bound (radians (h - 30))).
  assert (H2 := COS_bound (radians (2 * h))).
  assert (H3 := COS_bound (radians (3 * h + 6))).
  assert (H4 := COS_bound (radians (4 * h - 63))).
  lra.
Qed.

Lemma dro_bounds : 0 < Ciede2k.dro a1 b1 a2 b2 <= 30.
Proof.
  unfold Ciede2k.dro.
  assert (H := exp_neg_square_bounds ((Ciede2k.ahp a1 b1 a2 b2 - 275) / 25)).
  lra.
Qed.

Lemma rotation_sine_pos :
  0 < sin (radians (2 * Ciede2k.dro a1 b1 a2 b2)) <= 1.
Proof.
  assert (Hd := dro_bounds). assert (Hpi := PI_RGT_0).
  split; [|apply SIN_bound].
  assert (Hr : 0 < radians (2 * Ciede2k.dro a1 b1 a2 b2) <= PI / 3).
  { unfold radians. split.
    - apply Rmult_lt_0_compat; lra.
    - replace (PI / 3) with (60 * (PI / 180)) by field.
      apply Rmult_le_compat_r; lra. }
  apply sin_gt_0; lra.
Qed.

Lemma rt_nonpos : -2 < Ciede2k.rt a1 b1 a2 b2 <= 0.
Proof.
  unfold Ciede2k.rt.
  assert (Hr := rc_bounds a1 b1 a2 b2). assert (Hs := rotation_sine_pos).
  nra.
Qed.

End CiedeWeights.

(** X9. The weighting terms of [_ciede2kDistance] stay in fixed ranges for
    every input: [G] in (0, 0.5], [T] in [0.07, 1.93], the rotation angle
    [dro] in (0, 30], [R_C] in [0, 1), the three scale factors [S_L], [S_C],
    [S_H] at least 1, and the rotation term [R_T] in (-2, 0]. *)
Theorem ciede2k_weight_ranges (l1 a1 b1 l2 a2 b2 : R) :
  0 < Ciede2k.g a1 b1 a2 b2 <= 0.5
  /\ 0.07 <= Ciede2k.t a1 b1 a2 b2 <= 1.93
  /\ 0 < Ciede2k.dro a1 b1 a2 b2 <= 30
  /\ 0 <= Ciede2k.rc a1 b1 a2 b2 < 1
  /\ 1 <= Ciede2k.sl l1 l2
  /\ 1 <= Ciede2k.sc a1 b1 a2 b2
  /\ 1 <= Ciede2k.sh a1 b1 a2 b2
  /\ -2 < Ciede2k.rt a1 b1 a2 b2 <= 0.
Proof.
  split; [apply g_bounds|].
  split; [split; [apply t_lower | apply t_upper]|].
  split; [apply dro_bounds|].
  split; [apply rc_bounds|].
  split; [apply sl_lower|].
  split; [apply sc_lower|].
  split; [apply sh_lower | apply rt_nonpos].
Qed.

(* ------------------------------------------------------------------ *)
(** ** CIEDE2000: the adjusted chroma *)

(** X10. The adjustment of [a] never lowers the chroma and raises it by at
    most one half: [C <= C' <= 1.5 * C] for both colours. *)
Theorem adjusted_chroma_bounds (a1 b1 a2 b2 : R) :
  Ciede2k.c1 a1 b1 <= Ciede2k.c1p a1 b1 a2 b2 <= 1.5 * Ciede2k.c1 a1 b1
  /\ Ciede2k.c2 a2 b2 <= Ciede2k.c2p a1 b1 a2 b2 <= 1.5 * Ciede2k.c2 a2 b2.
Proof.
  assert (Hg := g_bounds a1 b1 a2 b2).
  assert (Hgen : forall a b : R,
            hypot a b <= sqrt (pow2 ((1 + Ciede2k.g a1 b1 a2 b2) * a) + pow2 b)
            <= 1.5 * hypot a b).
  { intros a b. unfold hypot, pow2.
    set (k := 1 + Ciede2k.g a1 b1 a2 b2) in *.
    assert (Ha := Rle_0_sqr a). assert (Hb := Rle_0_sqr b).
    unfold Rsqr in *.
    assert (Hk : 1 <= k * k <= 2.25) by (unfold k; nra).
    split.
    - apply sqrt_le_1_alt. nra.
    - replace 1.5 with (sqrt (1.5 * 1.5)) by (apply sqrt_square; lra).
      rewrite <- sqrt_mult_alt by lra.
      apply sqrt_le_1_alt. nra. }
  split; apply Hgen.
Qed.

(* ------------------------------------------------------------------ *)
(** ** CIEDE2000: a neutral colour, and bounds on the distance *)

Lemma c1p_neutral (a2 b2 : R) : Ciede2k.c1p 0 0 a2 b2 = 0.
Proof. apply c1p_zero. unfold Ciede2k.c1. apply hypot_zero. now split. Qed.

Lemma dhp_neutral (a2 b2 : R) : Ciede2k.dhp 0 0 a2 b2 = 0.
Proof.
  unfold Ciede2k.dhp. rewrite c1p_neutral, Rmult_0_l, sqrt_0. ring.
Qed.

(** X11. When the first colour is neutral ([a1 = b1 = 0]) the hue term
    vanishes and the distance is [sqrt((dL/S_L)^2 + (C2'/S_C)^2)]; between
    two neutral colours it is [|l2 - l1| / S_L]. *)
Theorem ciede2k_neutral (l1 l2 a2 b2 : R) :
  Ciede2k._ciede2kDistance l1 0 0 l2 a2 b2
  = sqrt (pow2 ((l2 - l1) / Ciede2k.sl l1 l2)
          + pow2 (Ciede2k.c2p 0 0 a2 b2 / Ciede2k.sc 0 0 a2 b2))
  /\ Ciede2k._ciede2kDistance l1 0 0 l2 0 0
     = Rabs (l2 - l1) / Ciede2k.sl l1 l2.
Proof.
  assert (Hrad : forall a b : R,
            Ciede2k.radicand l1 0 0 l2 a b
            = pow2 ((l2 - l1) / Ciede2k.sl l1 l2)
              + pow2 (Ciede2k.c2p 0 0 a b / Ciede2k.sc 0 0 a b)).
  { intros a b. unfold Ciede2k.radicand, Ciede2k.dcp, Ciede2k.dlp.
    rewrite dhp_neutral, c1p_neutral.
    unfold Ciede2k.kl, Ciede2k.kc, Ciede2k.kh, pow2, Rdiv.
    rewrite !Rmult_1_r. ring. }
  unfold Ciede2k._ciede2kDistance. split; [now rewrite Hrad|].
  rewrite Hrad.
  assert (Hc2 : Ciede2k.c2p 0 0 0 0 = 0).
  { apply c2p_zero. unfold Ciede2k.c2. apply hypot_zero. now split. }
  rewrite Hc2.
  replace (pow2 ((l2 - l1) / Ciede2k.sl l1 l2)
           + pow2 (0 / Ciede2k.sc 0 0 0 0))
    with (Rsqr ((l2 - l1) / Ciede2k.sl l1 l2))
    by (unfold pow2, Rsqr, Rdiv; ring).
  rewrite sqrt_Rsqr_abs. assert (Hsl := sl_lower l1 l2).
  unfold Rdiv. rewrite Rabs_mult. f_equal.
  apply Rabs_pos_eq. apply Rlt_le, Rinv_0_lt_compat. lra.
Qed.

Lemma rotated_sum_bounds (X Y Z r : R) :
  -2 <= r <= 2 ->
  X * X <= X * X + Y * Y + Z * Z + r * Y * Z
  <= (Rabs X + Rabs Y + Rabs Z) * (Rabs X + Rabs Y + Rabs Z).
Proof.
  intros Hr. split.
  - assert (H := rotated_sum_nonneg 0 Y Z Hr). lra.
  - assert (HX := Rabs_pos X). assert (HY := Rabs_pos Y).
    assert (HZ := Rabs_pos Z).
    assert (HX2 : Rabs X * Rabs X = X * X).
    { unfold Rabs. destruct (Rcase_abs X); ring. }
    assert (HY2 : Rabs Y * Rabs Y = Y * Y).
    { unfold Rabs. destruct (Rcase_abs Y); ring. }
    assert (HZ2 : Rabs Z * Rabs Z = Z * Z).
    { unfold Rabs. destruct (Rcase_abs Z); ring. }
    assert (HYZ : r * Y * Z <= 2 * (Rabs Y * Rabs Z)).
    { rewrite Rmult_assoc.
      unfold Rabs. destruct (Rcase_abs Y), (Rcase_abs Z).
      - assert (0 <= Y * Z) by nra. nra.
      - assert (Y * Z <= 0) by nra. nra.
      - assert (Y * Z <= 0) by nra. nra.
      - assert (0 <= Y * Z) by nra. nra. }
    nra.
Qed.

Lemma Rabs_div_scale (x s : R) : 1 <= s -> Rabs (x / (s * 1)) <= Rabs x.
Proof.
  intros Hs. rewrite Rmult_1_r. unfold Rdiv. rewrite Rabs_mult.
  assert (Hx := Rabs_pos x).
  assert (Hi : 0 < / s <= 1).
  { split; [apply Rinv_0_lt_compat; lra|].
    rewrite <- Rinv_1. apply Rinv_le_contravar; lra. }
  rewrite (Rabs_pos_eq (/ s)) by lra. nra.
Qed.

(** X12. The distance is at least the weighted lightness difference
    [|l2 - l1| / S_L] and at most [|dL'| + |dC'| + |dH'|]. *)
Theorem ciede2k_bounds (l1 a1 b1 l2 a2 b2 : R) :
  Rabs (l2 - l1) / Ciede2k.sl l1 l2
  <= Ciede2k._ciede2kDistance l1 a1 b1 l2 a2 b2
  <= Rabs (Ciede2k.dlp l1 l2) + Rabs (Ciede2k.dcp a1 b1 a2 b2)
     + Rabs (Ciede2k.dhp a1 b1 a2 b2).
Proof.
  assert (Hsl := sl_lower l1 l2).
  assert (Hsc := sc_lower a1 b1 a2 b2).
  assert (Hsh := sh_lower a1 b1 a2 b2).
  unfold Ciede2k._ciede2kDistance, Ciede2k.radicand, pow2.
  set (X := Ciede2k.dlp l1 l2 / (Ciede2k.sl l1 l2 * Ciede2k.kl)).
  set (Y := Ciede2k.dcp a1 b1 a2 b2 / (Ciede2k.sc a1 b1 a2 b2 * Ciede2k.kc)).
  set (Z := Ciede2k.dhp a1 b1 a2 b2 / (Ciede2k.sh a1 b1 a2 b2 * Ciede2k.kh)).
  rewrite (Rmult_assoc (Ciede2k.rt a1 b1 a2 b2)).
  rewrite <- (Rmult_assoc (Ciede2k.rt a1 b1 a2 b2) Y Z).
  destruct (rotated_sum_bounds X Y Z (rt_bounds a1 b1 a2 b2)) as [Hlo Hhi].
  assert (HX : Rabs X <= Rabs (Ciede2k.dlp l1 l2))
    by exact (Rabs_div_scale (Ciede2k.dlp l1 l2) Hsl).
  assert (HY : Rabs Y <= Rabs (Ciede2k.dcp a1 b1 a2 b2))
    by exact (Rabs_div_scale (Ciede2k.dcp a1 b1 a2 b2) Hsc).
  assert (HZ : Rabs Z <= Rabs (Ciede2k.dhp a1 b1 a2 b2))
    by exact (Rabs_div_scale (Ciede2k.dhp a1 b1 a2 b2) Hsh).
  assert (HaX := Rabs_pos X). assert (HaY := Rabs_pos Y).
  assert (HaZ := Rabs_pos Z).
  split.
  - replace (Rabs (l2 - l1) / Ciede2k.sl l1 l2) with (Rabs X).
    + rewrite <- sqrt_Rsqr_abs. apply sqrt_le_1_alt. exact Hlo.
    + unfold X, Ciede2k.dlp, Ciede2k.kl, Rdiv.
      rewrite Rmult_1_r, Rabs_mult. f_equal.
      apply Rabs_pos_eq, Rlt_le, Rinv_0_lt_compat. lra.
  - apply Rle_trans with (Rabs X + Rabs Y + Rabs Z); [|lra].
    rewrite <- (sqrt_square (Rabs X + Rabs Y + Rabs Z)) by lra.
    apply sqrt_le_1_alt. exact Hhi.
Qed.

(* ------------------------------------------------------------------ *)
(** ** CIEDE2000: distance zero only between equal colours *)

Lemma rotated_sum_zero (X Y Z r : R) :
  -2 < r < 2 ->
  X * X + Y * Y + Z * Z + r * Y * Z = 0 -> X = 0 /\ Y = 0 /\ Z = 0.
Proof.
  intros Hr H.
  assert (HX := Rle_0_sqr X). assert (HYZ := sum_squares_nonneg Y Z).
  assert (Hp := Rle_0_sqr (Y + Z)). assert (Hm := Rle_0_sqr (Y - Z)).
  unfold Rsqr in *.
  assert (Hsum : Y * Y + Z * Z = 0).
  { destruct (Rle_dec 0 r) as [Hpos|Hneg].
    - assert (H1 : 0 <= (1 - r / 2) * (Y * Y + Z * Z))
        by (apply Rmult_le_pos; lra).
      assert (H2 : 0 <= r / 2 * ((Y + Z) * (Y + Z)))
        by (apply Rmult_le_pos; lra).
      assert (H3 : (1 - r / 2) * (Y * Y + Z * Z) = 0) by lra.
      apply Rmult_integral in H3. destruct H3; lra.
    - assert (H1 : 0 <= (1 + r / 2) * (Y * Y + Z * Z))
        by (apply Rmult_le_pos; lra).
      assert (H2 : 0 <= - r / 2 * ((Y - Z) * (Y - Z)))
        by (apply Rmult_le_pos; lra).
      assert (H3 : (1 + r / 2) * (Y * Y + Z * Z) = 0) by lra.
      apply Rmult_integral in H3. destruct H3; lra. }
  destruct (sum_squares_zero Hsum) as [HY HZ]. subst Y Z.
  repeat split; try reflexivity. nra.
Qed.

Lemma sin_zero_quarter (x : R) :
  - (PI / 2) <= x <= PI / 2 -> sin x = 0 -> x = 0.
Proof.
  intros Hx Hs. assert (Hpi := PI_RGT_0).
  apply sin_inj; [assumption | lra | now rewrite sin_0].
Qed.

Lemma Rdiv_scale_zero (x s : R) : 1 <= s -> x / (s * 1) = 0 -> x = 0.
Proof.
  intros Hs H. rewrite Rmult_1_r in H. unfold Rdiv in H.
  apply Rmult_integral in H. destruct H as [H|H]; [assumption|].
  assert (0 < / s) by (apply Rinv_0_lt_compat; lra). lra.
Qed.

(** The hue angle is 0 only at the origin. *)
Lemma hue_angle_zero (b a' : R) :
  hue_angle_doc b a' = 0 -> a' = 0 /\ b = 0.
Proof.
  assert (Hd := degrees_atan2_bounds b a').
  unfold hue_angle_doc, Rgtb, Reqb.
  destruct (Req_dec_T a' 0) as [Ha|Ha]; destruct (Req_dec_T b 0) as [Hb|Hb];
    cbn [andb]; try (intros _; now split);
    destruct (Rgt_dec (degrees (atan2 b a')) 0); intros H; lra.
Qed.

(** Away from the origin, the hue angle determines the raw angle. *)
Lemma hue_angle_inj (b a' d c' : R) :
  ~ (a' = 0 /\ b = 0) -> ~ (c' = 0 /\ d = 0) ->
  hue_angle_doc b a' = hue_angle_doc d c' ->
  atan2 b a' = atan2 d c'.
Proof.
  intros H1 H2. assert (Hpi := PI_RGT_0).
  assert (Hd1 := degrees_atan2_bounds b a').
  assert (Hd2 := degrees_atan2_bounds d c').
  assert (Hdeg : hue_angle_doc b a' = hue_angle_doc d c' ->
                 degrees (atan2 b a') = degrees (atan2 d c')).
  { unfold hue_angle_doc, Rgtb, Reqb.
    destruct (Req_dec_T a' 0), (Req_dec_T b 0),
             (Req_dec_T c' 0), (Req_dec_T d 0);
      cbn [andb]; try tauto;
      destruct (Rgt_dec (degrees (atan2 b a')) 0),
               (Rgt_dec (degrees (atan2 d c')) 0);
      intros H; lra. }
  intros H. apply Hdeg in H. unfold degrees in H.
  apply Rmult_eq_reg_r in H; [assumption|].
  assert (0 < 180 / PI) by (apply Rdiv_lt_0_compat; lra). lra.
Qed.

Lemma hypot_factor (x y : R) :
  x <> 0 -> hypot x y = Rabs x * sqrt (1 + (y / x)²).
Proof.
  intros Hx. unfold hypot.
  rewrite <- sqrt_Rsqr_abs, <- sqrt_mult_alt by apply Rle_0_sqr.
  f_equal. unfold Rsqr. field. assumption.
Qed.

Lemma sqrt_one_plus_square_pos (t : R) : 0 < sqrt (1 + t²).
Proof. apply sqrt_lt_R0. assert (H := Rle_0_sqr t). lra. Qed.

(** [atan2] gives the polar angle: away from the origin, the point is its
    distance from the origin times the cosine and sine of the angle. *)
Lemma atan2_polar (x y : R) :
  ~ (x = 0 /\ y = 0) ->
  hypot x y * cos (atan2 y x) = x /\ hypot x y * sin (atan2 y x) = y.
Proof.
  intros Hne. assert (Hpi := PI_RGT_0).
  assert (HS := sqrt_one_plus_square_pos (y / x)).
  unfold atan2.
  destruct (Rlt_dec 0 x) as [Hx|Hx].
  - rewrite hypot_factor by lra. rewrite Rabs_pos_eq by lra.
    rewrite cos_atan, sin_atan. split; field; lra.
  - destruct (Rlt_dec x 0) as [Hx'|Hx'].
    + rewrite hypot_factor by lra. rewrite Rabs_left by lra.
      destruct (Rle_dec 0 y).
      * rewrite neg_cos, neg_sin, cos_atan, sin_atan. split; field; lra.
      * rewrite cos_minus, sin_minus, cos_PI, sin_PI, cos_atan, sin_atan.
        split; field; lra.
    + assert (Hx0 : x = 0) by lra. subst x.
      assert (Hy : y <> 0) by (intros ->; apply Hne; now split).
      unfold hypot. replace (0 * 0 + y * y) with (Rsqr y)
        by (unfold Rsqr; ring).
      rewrite sqrt_Rsqr_abs.
      destruct (Rlt_dec 0 y) as [Hpos|Hpos].
      * rewrite cos_PI2, sin_PI2, Rabs_pos_eq by lra. split; ring.
      * destruct (Rlt_dec y 0) as [Hneg|Hneg]; [|lra].
        rewrite cos_neg, sin_neg, cos_PI2, sin_PI2, Rabs_left by lra.
        split; ring.
Qed.

Lemma polar_injective (x y u v : R) :
  ~ (x = 0 /\ y = 0) -> ~ (u = 0 /\ v = 0) ->
  hypot x y = hypot u v -> atan2 y x = atan2 v u ->
  x = u /\ y = v.
Proof.
  intros H1 H2 Hh Ha.
  destruct (atan2_polar H1) as [Hx Hy].
  destruct (atan2_polar H2) as [Hu Hv].
  rewrite Hh, Ha in Hx, Hy. split; congruence.
Qed.

Section CiedeZero.

Variables l1 a1 b1 l2 a2 b2 : R.

Lemma c1p_hypot :
  Ciede2k.c1p a1 b1 a2 b2 = hypot (Ciede2k.a1p a1 b1 a2 b2) b1.
Proof. reflexivity. Qed.

Lemma c2p_hypot :
  Ciede2k.c2p a1 b1 a2 b2 = hypot (Ciede2k.a2p a1 b1 a2 b2) b2.
Proof. reflexivity. Qed.

(** Equal adjusted chroma and a vanishing hue term force equal [a] and [b]. *)
Lemma chroma_hue_zero :
  Ciede2k.dcp a1 b1 a2 b2 = 0 -> Ciede2k.dhp a1 b1 a2 b2 = 0 ->
  a1 = a2 /\ b1 = b2.
Proof.
  intros Hdc Hdh. assert (Hpi := PI_RGT_0).
  assert (Hc : Ciede2k.c2p a1 b1 a2 b2 = Ciede2k.c1p a1 b1 a2 b2)
    by (unfold Ciede2k.dcp in Hdc; lra).
  assert (Hg := g_bounds a1 b1 a2 b2).
  assert (Ha : Ciede2k.a1p a1 b1 a2 b2 = Ciede2k.a2p a1 b1 a2 b2 -> a1 = a2).
  { unfold Ciede2k.a1p, Ciede2k.a2p. intros H.
    apply Rmult_eq_reg_l in H; [assumption | lra]. }
  destruct (Req_dec_T (Ciede2k.c1p a1 b1 a2 b2) 0) as [Hz|Hnz].
  - assert (Hz2 : Ciede2k.c2p a1 b1 a2 b2 = 0) by lra.
    rewrite c1p_hypot in Hz. rewrite c2p_hypot in Hz2.
    apply hypot_zero in Hz, Hz2.
    destruct Hz as [Hz ->], Hz2 as [Hz2 ->].
    split; [apply Ha; lra | reflexivity].
  - assert (Hpos : 0 < Ciede2k.c1p a1 b1 a2 b2).
    { assert (H := c1p_nonneg a1 b1 a2 b2). lra. }
    assert (Ho1 : ~ (Ciede2k.a1p a1 b1 a2 b2 = 0 /\ b1 = 0)).
    { intros H. apply Hnz. rewrite c1p_hypot. now apply hypot_zero. }
    assert (Ho2 : ~ (Ciede2k.a2p a1 b1 a2 b2 = 0 /\ b2 = 0)).
    { intros H. apply Hnz. rewrite <- Hc, c2p_hypot. now apply hypot_zero. }
    assert (Hprod : Ciede2k.c1p a1 b1 a2 b2 * Ciede2k.c2p a1 b1 a2 b2 <> 0).
    { rewrite Hc. nra. }
    assert (Hc12 : Ciede2k.c1 a1 b1 * Ciede2k.c2 a2 b2 <> 0).
    { intros H. apply Hprod. now apply chroma_product_zero. }
    assert (Hh1 := hue_angle_range b1 (Ciede2k.a1p a1 b1 a2 b2)).
    assert (Hh2 := hue_angle_range b2 (Ciede2k.a2p a1 b1 a2 b2)).
    assert (Hn1 : hue_angle_doc b1 (Ciede2k.a1p a1 b1 a2 b2) <> 0).
    { intros H. now apply hue_angle_zero in H. }
    assert (Hn2 : hue_angle_doc b2 (Ciede2k.a2p a1 b1 a2 b2) <> 0).
    { intros H. now apply hue_angle_zero in H. }
    unfold Ciede2k.dhp in Hdh.
    rewrite (Reqb_false Hc12), h1p_rule, h2p_rule in Hdh.
    set (h1 := hue_angle_doc b1 (Ciede2k.a1p a1 b1 a2 b2)) in *.
    set (h2 := hue_angle_doc b2 (Ciede2k.a2p a1 b1 a2 b2)) in *.
    assert (Hroot : 0 < sqrt (Ciede2k.c1p a1 b1 a2 b2
                              * Ciede2k.c2p a1 b1 a2 b2)).
    { apply sqrt_lt_R0. rewrite Hc. nra. }
    apply Rmult_integral in Hdh. destruct Hdh as [Hdh|Hsin]; [lra|].
    assert (Hhue : h1 = h2).
    { revert Hsin. unfold Rleb, Rgtb, radians.
      destruct (Rle_dec (Rabs (h2 - h1)) 180) as [Hle|Hgt].
      - intros Hsin. apply sin_zero_quarter in Hsin.
        + assert (h2 - h1 = 0) by nra. lra.
        + unfold Rabs in Hle. destruct (Rcase_abs (h2 - h1)); split; nra.
      - assert (Habs : 180 < h2 - h1 \/ h2 - h1 < -180).
        { apply Rnot_le_lt in Hgt. unfold Rabs in Hgt.
          destruct (Rcase_abs (h2 - h1)); lra. }
        destruct (Rgt_dec (h2 - h1) 180) as [Hbig|Hsmall];
          intros Hsin; apply sin_zero_quarter in Hsin;
          try (split; nra).
        + assert (h2 - h1 - 360 = 0) by nra. lra.
        + assert (h2 - h1 + 360 = 0) by nra. lra. }
    apply (hue_angle_inj Ho1 Ho2) in Hhue.
    rewrite c1p_hypot, c2p_hypot in Hc. symmetry in Hc.
    destruct (polar_injective Ho1 Ho2 Hc Hhue) as [Hap Hb].
    split; [now apply Ha | assumption].
Qed.

End CiedeZero.

(** X13. [_ciede2kDistance] is [0] exactly when the two colours have the
    same [L], [a] and [b]. *)
Theorem ciede2k_zero_iff (l1 a1 b1 l2 a2 b2 : R) :
  Ciede2k._ciede2kDistance l1 a1 b1 l2 a2 b2 = 0
  <-> l1 = l2 /\ a1 = a2 /\ b1 = b2.
Proof.
  split.
  - intros H0. unfold Ciede2k._ciede2kDistance in H0.
    apply sqrt_eq_0 in H0; [|apply radicand_nonneg].
    unfold Ciede2k.radicand, pow2 in H0.
    rewrite (Rmult_assoc (Ciede2k.rt a1 b1 a2 b2)) in H0.
    rewrite <- (Rmult_assoc (Ciede2k.rt a1 b1 a2 b2)) in H0.
    apply rotated_sum_zero in H0.
    2:{ assert (H := rt_nonpos a1 b1 a2 b2). lra. }
    destruct H0 as (HX & HY & HZ).
    apply (Rdiv_scale_zero (sl_lower l1 l2)) in HX.
    apply (Rdiv_scale_zero (sc_lower a1 b1 a2 b2)) in HY.
    apply (Rdiv_scale_zero (sh_lower a1 b1 a2 b2)) in HZ.
    destruct (chroma_hue_zero HY HZ) as [Ha Hb].
    unfold Ciede2k.dlp in HX. repeat split; [lra | assumption | assumption].
  - intros (-> & -> & ->). apply ciede2k_identity.
Qed.

(* ------------------------------------------------------------------ *)
(** ** CIEDE2000: the mean hue and the hue term *)

Lemma hue_angle_origin (b a' : R) : a' = 0 -> b = 0 -> hue_angle_doc b a' = 0.
Proof.
  intros Ha Hb. unfold hue_angle_doc.
  now rewrite (Reqb_true Ha), (Reqb_true Hb).
Qed.

Section CiedeMeanHue.

Variables a1 b1 a2 b2 : R.

Lemma h1p_neutral : Ciede2k.c1 a1 b1 = 0 -> Ciede2k.h1p a1 b1 a2 b2 = 0.
Proof.
  intros H. apply hypot_zero in H. destruct H as [Ha Hb].
  rewrite h1p_rule. apply hue_angle_origin; [|assumption].
  now apply a1p_zero.
Qed.

Lemma h2p_neutral : Ciede2k.c2 a2 b2 = 0 -> Ciede2k.h2p a1 b1 a2 b2 = 0.
Proof.
  intros H. apply hypot_zero in H. destruct H as [Ha Hb].
  rewrite h2p_rule. apply hue_angle_origin; [|assumption].
  now apply a2p_zero.
Qed.

Lemma ahp_range : 0 <= Ciede2k.ahp a1 b1 a2 b2 <= 360.
Proof.
  assert (H1 : 0 <= Ciede2k.h1p a1 b1 a2 b2 <= 360)
    by (rewrite h1p_rule; apply hue_angle_range).
  assert (H2 : 0 <= Ciede2k.h2p a1 b1 a2 b2 <= 360)
    by (rewrite h2p_rule; apply hue_angle_range).
  unfold Ciede2k.ahp, Reqb, Rleb, Rgtb, Rltb.
  destruct (Req_dec_T (Ciede2k.c1 a1 b1 * Ciede2k.c2 a2 b2) 0) as [Hz|Hnz].
  - apply Rmult_integral in Hz. destruct Hz as [Hz|Hz].
    + rewrite (h1p_neutral Hz). lra.
    + rewrite (h2p_neutral Hz). lra.
  - set (h1 := Ciede2k.h1p a1 b1 a2 b2) in *.
    set (h2 := Ciede2k.h2p a1 b1 a2 b2) in *.
    destruct (Rle_dec (Rabs (h1 - h2)) 180) as [Hle|Hgt]; [lra|].
    assert (Habs : 180 < h1 - h2 \/ h1 - h2 < -180).
    { apply Rnot_le_lt in Hgt. unfold Rabs in Hgt.
      destruct (Rcase_abs (h1 - h2)); lra. }
    destruct (Rgt_dec (Rabs (h1 - h2)) 180); cbn [andb];
      destruct (Rlt_dec (h1 + h2) 360); lra.
Qed.

Lemma dhp_chord :
  Rabs (Ciede2k.dhp a1 b1 a2 b2)
  <= 2 * sqrt (Ciede2k.c1p a1 b1 a2 b2 * Ciede2k.c2p a1 b1 a2 b2).
Proof.
  unfold Ciede2k.dhp.
  match goal with
  | |- Rabs (_ * sin ?x) <= _ => assert (Hs := SIN_bound x); set (s := sin x) in *
  end.
  assert (Hr := sqrt_pos (Ciede2k.c1p a1 b1 a2 b2 * Ciede2k.c2p a1 b1 a2 b2)).
  set (r := sqrt (Ciede2k.c1p a1 b1 a2 b2 * Ciede2k.c2p a1 b1 a2 b2)) in *.
  unfold Rabs. destruct (Rcase_abs (2 * r * s)); nra.
Qed.

End CiedeMeanHue.

(** X14. The mean hue computed by [_ciede2kDistance] lies between 0 and
    360 degrees, and the hue term is at most the chord [2 * sqrt(C1' * C2')]
    in absolute value. *)
Theorem hue_terms_ranges (a1 b1 a2 b2 : R) :
  0 <= Ciede2k.ahp a1 b1 a2 b2 <= 360
  /\ Rabs (Ciede2k.dhp a1 b1 a2 b2)
     <= 2 * sqrt (Ciede2k.c1p a1 b1 a2 b2 * Ciede2k.c2p a1 b1 a2 b2).
Proof. split; [apply ahp_range | apply dhp_chord]. Qed.
